(** * sentinel-watch: the event stream hook, the map geometry and the views

    A shallow embedding of the front end's core:
    - [hooks/useEventStream.js]: the WebSocket hook (message handler, the two
      windows, the reconnect logic and the effect cleanup);
    - [utils/geoUtils.js]: the equirectangular projection and the hit test;
    - [utils/eventConfig.js], [components/EventFeed.jsx],
      [components/EventGrid.jsx]: the per-type configuration lookup;
    - [App.jsx]: the choice between the stream's window and the mock data,
      the filter, the pills and the feed panel;
    - [components/WorldMap.jsx]: the two pointer handlers;
    - [components/EventDetail.jsx], [components/BreakdownBars.jsx]: the
      detail card and the counts per type;
    - [hooks/useStats.js]: one poll of the statistics.

    Definitions come first (one module per source file), the theorems follow. *)

From Stdlib Require Import List String Ascii Bool Arith ZArith QArith Lia.
From Stdlib Require Import Reals Lra.
From Stdlib Require Floats.
Import ListNotations.

Set Warnings "-register-all".

(* ===================================================================== *)
(** ** JavaScript values as they come out of [JSON.parse] *)
(* ===================================================================== *)

Module JS.

Local Open Scope string_scope.

(** A value produced by [JSON.parse], or [undefined] (the result of reading a
    property that is not there).  An object is the list of its own properties
    (each key once, as [JSON.parse] leaves them). *)
Inductive jsval : Type :=
| JUndefined
| JNull
| JBool (b : bool)
| JNum (q : Q)
| JStr (s : string)
| JArr (items : list jsval)
| JObj (props : list (string * jsval)).

(** The two exceptions the hook's code can raise. *)
Inductive error : Type :=
| SyntaxError   (* JSON.parse on text that is not JSON *)
| TypeError.    (* property of undefined/null, call of a non-function,
                   spread of a non-iterable *)

Inductive result (A : Type) : Type :=
| Ok (a : A)
| Throw (e : error).
Arguments Ok {A} a.
Arguments Throw {A} e.

Definition rbind {A B} (r : result A) (k : A -> result B) : result B :=
  match r with
  | Ok a => k a
  | Throw e => Throw e
  end.

(** ToBoolean. *)
Definition truthy (v : jsval) : bool :=
  match v with
  | JUndefined | JNull => false
  | JBool b => b
  | JNum q => negb (Qeq_bool q 0)
  | JStr s => negb (String.eqb s "")
  | JArr _ | JObj _ => true
  end.

(** [a || b]. *)
Definition js_or (a b : jsval) : jsval := if truthy a then a else b.

(** [v === "lit"]. *)
Definition strict_eq_str (v : jsval) (lit : string) : bool :=
  match v with
  | JStr s => String.eqb s lit
  | _ => false
  end.

Fixpoint own_prop (k : string) (props : list (string * jsval)) : jsval :=
  match props with
  | [] => JUndefined
  | (k', v) :: rest => if String.eqb k k' then v else own_prop k rest
  end.

(** [v.k] for the names the hook reads, [type] and [events]: no built-in
    prototype defines them, so only an object's own property can answer;
    reading a property of [undefined] or [null] throws. *)
Definition get_field (v : jsval) (k : string) : result jsval :=
  match v with
  | JUndefined | JNull => Throw TypeError
  | JObj props => Ok (own_prop k props)
  | JBool _ | JNum _ | JStr _ | JArr _ => Ok JUndefined
  end.

(** The one-character strings of a string, in order (the strings of the
    model hold no surrogate pair, so code units and code points agree). *)
Definition chars (s : string) : list jsval :=
  map (fun c => JStr (String c EmptyString)) (list_ascii_of_string s).

(** [v[0]]. *)
Definition get_index0 (v : jsval) : result jsval :=
  match v with
  | JUndefined | JNull => Throw TypeError
  | JArr items => Ok (nth 0 items JUndefined)
  | JStr s => Ok (nth 0 (chars s) JUndefined)
  | JObj props => Ok (own_prop "0" props)
  | JBool _ | JNum _ => Ok JUndefined
  end.

(** The final index of [slice(0, e)] on a sequence of [len] elements: a
    negative [e] counts from the end, and the result is clamped to
    [0 .. len]. *)
Definition slice_end (len : nat) (e : Z) : nat :=
  if (e <? 0)%Z
  then Z.to_nat (Z.max (Z.of_nat len + e) 0)
  else Z.to_nat (Z.min e (Z.of_nat len)).

(** [Array.prototype.slice(0, e)]. *)
Definition slice0 {A : Type} (l : list A) (e : Z) : list A :=
  firstn (slice_end (List.length l) e) l.

(** What [slice] returns, and so what the hook ever stores as a window: an
    array, or (sliced from a string) a string. *)
Inductive window : Type :=
| Items (items : list jsval)
| Text (s : string).

(** [v.slice(0, e)]: arrays and strings have the method; on anything else
    [v.slice] is absent or (in an object read from JSON) not a function, and
    the call throws. *)
Definition call_slice0 (v : jsval) (e : Z) : result window :=
  match v with
  | JArr items => Ok (Items (slice0 items e))
  | JStr s => Ok (Text (substring 0 (slice_end (String.length s) e) s))
  | JUndefined | JNull | JBool _ | JNum _ | JObj _ => Throw TypeError
  end.

(** The elements [...v] spreads into an array literal. *)
Definition spread (v : jsval) : result (list jsval) :=
  match v with
  | JArr items => Ok items
  | JStr s => Ok (chars s)
  | JUndefined | JNull | JBool _ | JNum _ | JObj _ => Throw TypeError
  end.

(** The elements [...w] spreads for a stored window. *)
Definition spread_window (w : window) : list jsval :=
  match w with
  | Items items => items
  | Text s => chars s
  end.

(** [w.length > 0]. *)
Definition length_positive (w : window) : bool :=
  match w with
  | Items items => Nat.ltb 0 (List.length items)
  | Text s => Nat.ltb 0 (String.length s)
  end.

End JS.

(* ===================================================================== *)
(** ** hooks/useEventStream.js: the React state and the message handler *)
(* ===================================================================== *)

Module Hook.

Import JS.
Local Open Scope string_scope.

(** The four [useState] cells of [useEventStream]. *)
Record hook_state : Type := mkHook {
  events : window;
  feed : window;
  connected : bool;
  latestEvent : jsval
}.

(** [useState([])], [useState([])], [useState(false)], [useState(null)]. *)
Definition initial : hook_state :=
  {| events := Items []; feed := Items []; connected := false;
     latestEvent := JNull |}.

(** A call of a state setter, queued until React renders: with the next
    value, or with an updater that React applies to the previous value. *)
Inductive update : Type :=
| SetEvents (next : window)
| SetEventsWith (updater : window -> result window)
| SetFeed (next : window)
| SetFeedWith (updater : window -> result window)
| SetConnected (next : bool)
| SetLatestEvent (next : jsval).

(** What a handler leaves behind: the queued setter calls (oldest first) and
    the lines written to the console. *)
Record effects : Type := mkEffects {
  queue : list update;
  console : list string
}.

Definition no_effects : effects := {| queue := []; console := [] |}.

(** Handler code: it queues updates, writes to the console and may throw;
    what was queued before a throw stays queued. *)
Definition M (A : Type) : Type := effects -> result A * effects.

Definition ret {A} (a : A) : M A := fun w => (Ok a, w).

Definition bind {A B} (m : M A) (k : A -> M B) : M B :=
  fun w =>
    match m w with
    | (Ok a, w') => k a w'
    | (Throw e, w') => (Throw e, w')
    end.

Definition lift {A} (r : result A) : M A := fun w => (r, w).

(** [try { body } catch (err) { handler(err) }]. *)
Definition try_catch {A} (body : M A) (handler : error -> M A) : M A :=
  fun w =>
    match body w with
    | (Ok a, w') => (Ok a, w')
    | (Throw e, w') => handler e w'
    end.

Definition set_state (u : update) : M unit :=
  fun w => (Ok tt, {| queue := queue w ++ [u]; console := console w |}).

Definition console_error (line : string) : M unit :=
  fun w => (Ok tt, {| queue := queue w; console := console w ++ [line] |}).

Declare Scope hook_scope.
Delimit Scope hook_scope with hook.
Notation "x <- m ;; k" := (bind m (fun x => k))
  (at level 61, m at next level, right associativity) : hook_scope.
Notation "m ;; k" := (bind m (fun _ => k))
  (at level 61, right associativity) : hook_scope.
Local Open Scope hook_scope.

(** The payload of a [MessageEvent]: what [JSON.parse(e.data)] gives, a value
    or a [SyntaxError]. *)
Record MessageEvent : Type := mkMessage {
  data : option jsval
}.

Definition JSON_parse (e : MessageEvent) : result jsval :=
  match data e with
  | Some v => Ok v
  | None => Throw SyntaxError
  end.

(** [(prev) => [...newEvts, ...prev].slice(0, n)]. *)
Definition prepend (newEvts : jsval) (n : Z) (prev : window) : result window :=
  rbind (spread newEvts) (fun a =>
  Ok (Items (slice0 (a ++ spread_window prev) n))).

(** The body of the [try] block of [ws.onmessage]. *)
Definition onmessage_try (maxEvents : Z) (e : MessageEvent) : M unit :=
  msg <- lift (JSON_parse e) ;;
  type <- lift (get_field msg "type") ;;
  if strict_eq_str type "history" then
    evs <- lift (get_field msg "events") ;;
    window <- lift (call_slice0 evs maxEvents) ;;
    set_state (SetEvents window) ;;
    evs' <- lift (get_field msg "events") ;;
    recent <- lift (call_slice0 evs' 20) ;;
    set_state (SetFeed recent)
  else if strict_eq_str type "new_events" then
    newEvts <- lift (get_field msg "events") ;;
    first <- lift (get_index0 newEvts) ;;
    set_state (SetLatestEvent (js_or first JNull)) ;;
    set_state (SetEventsWith (prepend newEvts maxEvents)) ;;
    set_state (SetFeedWith (prepend newEvts 20))
  else
    ret tt.

(** [ws.onmessage]. *)
Definition onmessage (maxEvents : Z) (e : MessageEvent) : M unit :=
  try_catch (onmessage_try maxEvents e)
            (fun _ => console_error "[WS] Parse error:").

(** React applying one queued update to the state; an updater that throws
    makes the render throw. *)
Definition apply_update (h : hook_state) (u : update) : result hook_state :=
  match u with
  | SetEvents v =>
      Ok {| events := v; feed := feed h; connected := connected h;
            latestEvent := latestEvent h |}
  | SetEventsWith f =>
      rbind (f (events h)) (fun v =>
      Ok {| events := v; feed := feed h; connected := connected h;
            latestEvent := latestEvent h |})
  | SetFeed v =>
      Ok {| events := events h; feed := v; connected := connected h;
            latestEvent := latestEvent h |}
  | SetFeedWith f =>
      rbind (f (feed h)) (fun v =>
      Ok {| events := events h; feed := v; connected := connected h;
            latestEvent := latestEvent h |})
  | SetConnected b =>
      Ok {| events := events h; feed := feed h; connected := b;
            latestEvent := latestEvent h |}
  | SetLatestEvent v =>
      Ok {| events := events h; feed := feed h; connected := connected h;
            latestEvent := v |}
  end.

(** The render that follows a handler: the queued updates, in call order. *)
Fixpoint render (h : hook_state) (q : list update) : result hook_state :=
  match q with
  | [] => Ok h
  | u :: rest => rbind (apply_update h u) (fun h' => render h' rest)
  end.

(** One inbound frame: the handler runs, then React renders what it queued. *)
Definition receive (maxEvents : Z) (e : MessageEvent) (h : hook_state)
  : result hook_state :=
  render h (queue (snd (onmessage maxEvents e no_effects))).

(** A sequence of inbound frames, oldest first. *)
Fixpoint receive_all (maxEvents : Z) (es : list MessageEvent) (h : hook_state)
  : result hook_state :=
  match es with
  | [] => Ok h
  | e :: rest => rbind (receive maxEvents e h) (receive_all maxEvents rest)
  end.

(** The two frames of the protocol, as the server sends them. *)
Definition history (batch : list jsval) : MessageEvent :=
  {| data := Some (JObj [("type", JStr "history"); ("events", JArr batch)]) |}.

Definition new_events (batch : list jsval) : MessageEvent :=
  {| data := Some (JObj [("type", JStr "new_events"); ("events", JArr batch)]) |}.

(** The default of the parameter: [useEventStream(maxEvents = 200)]. *)
Definition DEFAULT_MAX_EVENTS : Z := 200.

End Hook.

(* ===================================================================== *)
(** ** hooks/useEventStream.js: sockets, the reconnect timer, the effect *)
(* ===================================================================== *)

Module Client.

Import JS Hook.
Local Open Scope string_scope.

(** [WebSocket.readyState]. *)
Inductive readyState : Type := CONNECTING | OPEN | CLOSING | CLOSED.

(** The component that uses the hook: before its effect ran, while it is
    mounted, after the effect's cleanup ran. *)
Inductive phase : Type := Idle | Mounted | TornDown.

(** Everything the hook owns or started.  Sockets are named by the order of
    their construction; a socket keeps its handlers for as long as it lives,
    whatever [wsRef] points to. *)
Record client : Type := mkClient {
  hook : hook_state;            (* the React state *)
  sockets : list readyState;    (* every WebSocket constructed so far *)
  wsRef : option nat;           (* wsRef.current *)
  timers : list nat;            (* the timeouts still pending *)
  next_timer : nat;             (* the id the next setTimeout returns *)
  reconnectTimer : option nat;  (* reconnectTimer.current *)
  life : phase;
  attempts : nat;               (* calls of [new WebSocket] so far *)
  log : list string             (* console output *)
}.

Record config : Type := mkConfig {
  maxEvents : Z;   (* the hook's argument *)
  url_ok : bool    (* false when [new WebSocket(WS_URL)] throws *)
}.

(** [App] calls [useEventStream()], and the default [WS_URL] is a valid
    WebSocket address. *)
Definition default_config : config :=
  {| maxEvents := DEFAULT_MAX_EVENTS; url_ok := true |}.

Definition start : client :=
  {| hook := initial; sockets := []; wsRef := None; timers := [];
     next_timer := 0; reconnectTimer := None; life := Idle; attempts := 0;
     log := [] |}.

Definition with_hook (h : hook_state) (c : client) : client :=
  {| hook := h; sockets := sockets c; wsRef := wsRef c; timers := timers c;
     next_timer := next_timer c; reconnectTimer := reconnectTimer c;
     life := life c; attempts := attempts c; log := log c |}.

Definition with_sockets (s : list readyState) (c : client) : client :=
  {| hook := hook c; sockets := s; wsRef := wsRef c; timers := timers c;
     next_timer := next_timer c; reconnectTimer := reconnectTimer c;
     life := life c; attempts := attempts c; log := log c |}.

Definition with_timers (t : list nat) (c : client) : client :=
  {| hook := hook c; sockets := sockets c; wsRef := wsRef c; timers := t;
     next_timer := next_timer c; reconnectTimer := reconnectTimer c;
     life := life c; attempts := attempts c; log := log c |}.

Definition with_life (p : phase) (c : client) : client :=
  {| hook := hook c; sockets := sockets c; wsRef := wsRef c;
     timers := timers c; next_timer := next_timer c;
     reconnectTimer := reconnectTimer c; life := p; attempts := attempts c;
     log := log c |}.

Definition console_log (lines : list string) (c : client) : client :=
  {| hook := hook c; sockets := sockets c; wsRef := wsRef c;
     timers := timers c; next_timer := next_timer c;
     reconnectTimer := reconnectTimer c; life := life c;
     attempts := attempts c; log := log c ++ lines |}.

Fixpoint set_nth {A} (i : nat) (a : A) (l : list A) : list A :=
  match l, i with
  | [], _ => []
  | _ :: rest, O => a :: rest
  | x :: rest, S j => x :: set_nth j a rest
  end.

(** React and the updates a handler queued: rendered while the component is
    mounted, dropped otherwise. *)
Definition commit (q : list update) (c : client) : result client :=
  match life c with
  | Mounted => rbind (render (hook c) q) (fun h => Ok (with_hook h c))
  | Idle | TornDown => Ok c
  end.

(** [setConnected(b)]. *)
Definition setConnected (b : bool) (c : client) : client :=
  match life c with
  | Mounted =>
      with_hook {| events := events (hook c); feed := feed (hook c);
                   connected := b; latestEvent := latestEvent (hook c) |} c
  | Idle | TornDown => c
  end.

(** [reconnectTimer.current = setTimeout(connect, 3000)]. *)
Definition schedule_reconnect (c : client) : client :=
  {| hook := hook c; sockets := sockets c; wsRef := wsRef c;
     timers := timers c ++ [next_timer c];
     next_timer := S (next_timer c);
     reconnectTimer := Some (next_timer c);
     life := life c; attempts := attempts c; log := log c |}.

(** [clearTimeout(reconnectTimer.current)]. *)
Definition clear_reconnect (c : client) : client :=
  match reconnectTimer c with
  | Some id => with_timers (filter (fun t => negb (Nat.eqb t id)) (timers c)) c
  | None => c
  end.

(** [ws.close()] on socket [i]: starts the closing handshake of a socket
    that is connecting or open, and does nothing otherwise. *)
Definition close (i : nat) (c : client) : client :=
  match nth_error (sockets c) i with
  | Some CONNECTING | Some OPEN => with_sockets (set_nth i CLOSING (sockets c)) c
  | Some CLOSING | Some CLOSED | None => c
  end.

(** [wsRef.current?.readyState === WebSocket.OPEN]. *)
Definition current_is_open (c : client) : bool :=
  match wsRef c with
  | Some i =>
      match nth_error (sockets c) i with
      | Some OPEN => true
      | _ => false
      end
  | None => false
  end.

(** [connect]. *)
Definition connect (cfg : config) (c : client) : client :=
  if current_is_open c then c
  else if url_ok cfg then
    {| hook := hook c; sockets := sockets c ++ [CONNECTING];
       wsRef := Some (List.length (sockets c)); timers := timers c;
       next_timer := next_timer c; reconnectTimer := reconnectTimer c;
       life := life c; attempts := S (attempts c); log := log c |}
  else
    schedule_reconnect
      (console_log ["[WS] Could not connect:"]
         {| hook := hook c; sockets := sockets c; wsRef := wsRef c;
            timers := timers c; next_timer := next_timer c;
            reconnectTimer := reconnectTimer c; life := life c;
            attempts := S (attempts c); log := log c |}).

(** [ws.onopen]. *)
Definition onopen (c : client) : client :=
  clear_reconnect
    (console_log ["[WS] Connected to Pathway stream"] (setConnected true c)).

(** [ws.onclose]. *)
Definition onclose (c : client) : client :=
  schedule_reconnect
    (console_log ["[WS] Disconnected — reconnecting in 3s..."]
       (setConnected false c)).

(** [ws.onerror] of socket [i]. *)
Definition onerror (i : nat) (c : client) : client :=
  close i (console_log ["[WS] Error:"] c).

(** The cleanup the effect returns. *)
Definition cleanup (c : client) : client :=
  let c' := clear_reconnect c in
  match wsRef c' with
  | Some i => close i c'
  | None => c'
  end.

(** What the browser and React can make happen. *)
Inductive event : Type :=
| Mount                                       (* the effect runs *)
| Unmount                                     (* the effect's cleanup runs *)
| SocketOpen (i : nat)                        (* handshake of socket i done *)
| SocketMessage (i : nat) (e : MessageEvent)  (* a frame on socket i *)
| SocketClose (i : nat) (failed : bool)       (* socket i is closed; after a
                                                 failure, error fires first *)
| Timeout (id : nat).                         (* a pending timeout is due *)

Inductive outcome : Type :=
| Next (c : client)
| Disabled        (* the event cannot happen in this state *)
| RenderError.    (* a state updater threw while React rendered *)

Definition step (cfg : config) (ev : event) (c : client) : outcome :=
  match ev with
  | Mount =>
      match life c with
      | Idle => Next (connect cfg (with_life Mounted c))
      | Mounted | TornDown => Disabled
      end
  | Unmount =>
      match life c with
      | Mounted => Next (with_life TornDown (cleanup c))
      | Idle | TornDown => Disabled
      end
  | SocketOpen i =>
      match nth_error (sockets c) i with
      | Some CONNECTING =>
          Next (onopen (with_sockets (set_nth i OPEN (sockets c)) c))
      | _ => Disabled
      end
  | SocketMessage i e =>
      match nth_error (sockets c) i with
      | Some OPEN | Some CLOSING =>
          let w := snd (onmessage (maxEvents cfg) e no_effects) in
          match commit (queue w) (console_log (console w) c) with
          | Ok c' => Next c'
          | Throw _ => RenderError
          end
      | _ => Disabled
      end
  | SocketClose i failed =>
      match nth_error (sockets c) i with
      | Some CONNECTING | Some OPEN | Some CLOSING =>
          let c1 := with_sockets (set_nth i CLOSED (sockets c)) c in
          let c2 := if failed then onerror i c1 else c1 in
          Next (onclose c2)
      | _ => Disabled
      end
  | Timeout id =>
      if existsb (Nat.eqb id) (timers c)
      then Next (connect cfg
                   (with_timers
                      (filter (fun t => negb (Nat.eqb t id)) (timers c)) c))
      else Disabled
  end.

(** A run of events, oldest first. *)
Fixpoint run (cfg : config) (evs : list event) (c : client) : outcome :=
  match evs with
  | [] => Next c
  | ev :: rest =>
      match step cfg ev c with
      | Next c' => run cfg rest c'
      | Disabled => Disabled
      | RenderError => RenderError
      end
  end.

End Client.

(* ===================================================================== *)
(** ** utils/geoUtils.js: projection and hit test, in binary64 *)
(* ===================================================================== *)

Module Geo.

Import Floats.
Local Open Scope float_scope.

(** JavaScript numbers are IEEE 754 binary64 values, and [+], [-], [*], [/]
    and [<] on them are the operations of [PrimFloat]: each result is the
    exact one rounded to the nearest binary64 value, and every comparison
    with NaN is false. *)

(** [latToY], [lonToX]: the equirectangular projection. *)
Definition latToY (lat h : float) : float := ((90 - lat) / 180) * h.

Definition lonToX (lon w : float) : float := ((lon + 180) / 360) * w.

(** The object [xyToLatLon] returns. *)
Record LatLon : Type := mkLatLon {
  lat : float;
  lon : float
}.

Definition xyToLatLon (x y w h : float) : LatLon :=
  {| lat := 90 - (y / h) * 180;
     lon := (x / w) * 360 - 180 |}.

(** An event as the hit test reads it: its coordinates, and its identity. *)
Record event : Type := mkEvent {
  event_id : string;
  evt_lat : float;
  evt_lon : float
}.

(** [Math.hypot(a, b)].  ECMAScript fixes the result for infinite, NaN and
    zero arguments and otherwise asks for an approximation of the square
    root of the sum of the squares.  This is the computation of V8 (Chrome,
    Node.js): the magnitudes are divided by the largest of them, their
    squares are added with Kahan's compensated sum, and the square root is
    scaled back. *)
Definition magnitude (v : float) : float := if is_nan v then 0 else abs v.

Definition larger (max v : float) : float := if max <? v then v else max.

Definition kahan (max : float) (acc : float * float) (v : float)
  : float * float :=
  let '(sum, compensation) := acc in
  let n := v / max in
  let summand := n * n - compensation in
  let preliminary := sum + summand in
  (preliminary, (preliminary - sum) - summand).

Definition hypot (a b : float) : float :=
  let values := [magnitude a; magnitude b] in
  let max := fold_left larger values 0 in
  if max =? infinity then infinity
  else if is_nan a || is_nan b then nan
  else if max =? 0 then 0
  else sqrt (fst (fold_left (kahan max) values (0, 0))) * max.

(** The distance [d] the loop body computes for [evt]. *)
Definition pixel_distance (mx my w h : float) (evt : event) : float :=
  let x := lonToX (evt_lon evt) w in
  let y := latToY (evt_lat evt) h in
  hypot (mx - x) (my - y).

(** The two variables the loop of [findNearestEvent] updates. *)
Record search : Type := mkSearch {
  closest : option event;
  minDist : float
}.

(** The callback of [events.forEach]. *)
Definition visit (mx my w h : float) (acc : search) (evt : event) : search :=
  let d := pixel_distance mx my w h evt in
  if d <? minDist acc
  then {| closest := Some evt; minDist := d |}
  else acc.

Definition findNearestEvent (mx my : float) (events : list event)
                            (w h : float) (maxDist : float) : option event :=
  closest
    (fold_left (visit mx my w h) events
               {| closest := None; minDist := maxDist |}).

(** The default of the parameter [maxDist]. *)
Definition DEFAULT_MAX_DIST : float := 18.








End Geo.

(* ===================================================================== *)
(** ** utils/geoUtils.js: the projection read over the real numbers *)
(* ===================================================================== *)

(** The three expressions of the projection with the operations of the real
    numbers in place of those of binary64: what they give when no operation
    rounds.  The code's own arithmetic is that of [Geo]. *)
Module GeoExact.

Local Open Scope R_scope.

Definition latToY (lat h : R) : R := ((90 - lat) / 180) * h.

Definition lonToX (lon w : R) : R := ((lon + 180) / 360) * w.

Record LatLon : Type := mkLatLon {
  lat : R;
  lon : R
}.

Definition xyToLatLon (x y w h : R) : LatLon :=
  {| lat := 90 - (y / h) * 180;
     lon := (x / w) * 360 - 180 |}.

End GeoExact.

(* ===================================================================== *)
(** ** utils/eventConfig.js and the two components that read it *)
(* ===================================================================== *)

Module Render.

Local Open Scope string_scope.

(** An entry of [EVENT_CONFIG]. *)
Record type_config : Type := mkTypeConfig {
  icon : string;
  label : string;
  color : string;
  bg : string;
  border : string;
  description : string
}.

Definition deforestation : type_config :=
  {| icon := "🌳"; label := "Deforestation"; color := "#22c55e";
     bg := "rgba(34,197,94,0.12)"; border := "#166534";
     description := "Sudden NDVI drop below forest baseline" |}.

Definition flood : type_config :=
  {| icon := "🌊"; label := "Flood"; color := "#38bdf8";
     bg := "rgba(56,189,248,0.12)"; border := "#0369a1";
     description := "NDWI surge above seasonal water baseline" |}.

Definition crop_stress : type_config :=
  {| icon := "🌾"; label := "Crop Stress"; color := "#fbbf24";
     bg := "rgba(251,191,36,0.12)"; border := "#92400e";
     description := "Moderate NDVI decline in agricultural zones" |}.

Definition construction : type_config :=
  {| icon := "🏗️"; label := "Construction"; color := "#a78bfa";
     bg := "rgba(167,139,250,0.12)"; border := "#4c1d95";
     description := "NDVI drop + high SWIR reflectance" |}.

Definition fire : type_config :=
  {| icon := "🔥"; label := "Fire"; color := "#fb923c";
     bg := "rgba(251,146,60,0.12)"; border := "#7c2d12";
     description := "SWIR spike + near-zero NDVI" |}.

Definition drought : type_config :=
  {| icon := "🏜️"; label := "Drought"; color := "#f59e0b";
     bg := "rgba(245,158,11,0.12)"; border := "#78350f";
     description := "Negative NDWI delta — water body shrinkage" |}.

(** The own properties of the object literal [EVENT_CONFIG]. *)
Definition EVENT_CONFIG : list (string * type_config) :=
  [ ("deforestation", deforestation); ("flood", flood);
    ("crop_stress", crop_stress); ("construction", construction);
    ("fire", fire); ("drought", drought) ].

(** [EVENT_CONFIG] is written as an object literal, so its prototype is
    [Object.prototype]; these are the names a lookup finds there. *)
Definition Object_prototype : list string :=
  [ "constructor"; "__defineGetter__"; "__defineSetter__"; "hasOwnProperty";
    "__lookupGetter__"; "__lookupSetter__"; "isPrototypeOf";
    "propertyIsEnumerable"; "toString"; "valueOf"; "__proto__";
    "toLocaleString" ].

(** What [EVENT_CONFIG[key]] evaluates to. *)
Inductive looked_up : Type :=
| Entry (cfg : type_config)   (* an own property *)
| Inherited (name : string)   (* a member of Object.prototype: a function,
                                 or for __proto__ the prototype itself *)
| Undefined.

Fixpoint assoc (key : string) (o : list (string * type_config))
  : option type_config :=
  match o with
  | [] => None
  | (k, v) :: rest => if String.eqb key k then Some v else assoc key rest
  end.

Definition lookup (key : string) : looked_up :=
  match assoc key EVENT_CONFIG with
  | Some cfg => Entry cfg
  | None =>
      if existsb (String.eqb key) Object_prototype
      then Inherited key
      else Undefined
  end.

(** [EVENT_CONFIG[evt.event_type] || EVENT_CONFIG.deforestation]: entries,
    functions and objects are truthy, [undefined] is not. *)
Definition cfg_of (event_type : string) : looked_up :=
  match lookup event_type with
  | Undefined => Entry deforestation
  | found => found
  end.

(** [cfg.icon], [cfg.label], [cfg.color], [cfg.bg]: [None] is [undefined]
    (no member of [Object.prototype] has such a property). *)
Definition field (f : type_config -> string) (cfg : looked_up)
  : option string :=
  match cfg with
  | Entry c => Some (f c)
  | Inherited _ | Undefined => None
  end.

(** The fields of an event the two components read through [cfg]. *)
Record event : Type := mkEvent {
  event_id : string;
  event_type : string
}.

(** What a row of [EventFeed] shows of [cfg]. *)
Record feed_row : Type := mkFeedRow {
  row_key : string;
  row_icon : option string;
  row_label : option string;
  row_color : option string
}.

Definition feed_row_of (evt : event) : feed_row :=
  let cfg := cfg_of (event_type evt) in
  {| row_key := event_id evt;
     row_icon := field icon cfg;
     row_label := field label cfg;
     row_color := field color cfg |}.

(** [EventFeed]: the placeholder for an empty feed, else a row for each of
    the first 20 events. *)
Inductive feed_view : Type :=
| Awaiting
| Rows (rows : list feed_row).

Definition EventFeed (feed : list event) : feed_view :=
  match feed with
  | [] => Awaiting
  | _ => Rows (map feed_row_of (firstn 20 feed))
  end.

(** What a card of [EventGrid] shows of [cfg]; the background is [cfg.bg]
    on the selected card only. *)
Record grid_card : Type := mkGridCard {
  card_key : string;
  card_icon : option string;
  card_label : option string;
  card_color : option string;
  card_background : option string
}.

Definition grid_card_of (selected : option string) (evt : event) : grid_card :=
  let cfg := cfg_of (event_type evt) in
  let isSel := match selected with
               | Some id => String.eqb id (event_id evt)
               | None => false
               end in
  {| card_key := event_id evt;
     card_icon := field icon cfg;
     card_label := field label cfg;
     card_color := field color cfg;
     card_background :=
       if isSel then field bg cfg else Some "rgba(5,14,30,0.6)" |}.

Definition EventGrid (events : list event) (selected : option string)
  : list grid_card :=
  map (grid_card_of selected) (firstn 20 events).

End Render.

(* ===================================================================== *)
(** ** App.jsx: which events the views are given *)
(* ===================================================================== *)

Module App.

Import JS Hook.

(** [wsEvents.length > 0 ? wsEvents : mockEvents]; [mockEvents] is the
    array [generateMockEvents(30)] built once. *)
Definition events (h : hook_state) (mockEvents : list jsval) : window :=
  if length_positive (Hook.events h) then Hook.events h else Items mockEvents.

End App.

(* ===================================================================== *)
(** ** The protocol, in the specification's words *)
(* ===================================================================== *)

Module Protocol.

Import JS Hook.
Local Open Scope string_scope.

(** The two messages of the push stream. *)
Inductive message : Type :=
| Snapshot (batch : list jsval)
| Delta (batch : list jsval).

Definition frame (m : message) : MessageEvent :=
  match m with
  | Snapshot batch => history batch
  | Delta batch => new_events batch
  end.

(** All events seen, newest arrival first: a snapshot starts the sequence
    over with its batch, a delta puts its batch in front. *)
Definition arrive (seen : list jsval) (m : message) : list jsval :=
  match m with
  | Snapshot batch => batch
  | Delta batch => batch ++ seen
  end.

Definition arrival_order (msgs : list message) : list jsval :=
  fold_left arrive msgs [].

(** The first event of a delta batch; [null] for a batch without one. *)
Definition first_or_null (batch : list jsval) : jsval :=
  match batch with
  | [] => JNull
  | e :: _ => if truthy e then e else JNull
  end.

(** What the last delta of a sequence carried first, [null] before any. *)
Definition latest_after (latest : jsval) (m : message) : jsval :=
  match m with
  | Snapshot _ => latest
  | Delta batch => first_or_null batch
  end.

Definition expected_latest (msgs : list message) : jsval :=
  fold_left latest_after msgs JNull.

(** An event object, for examples: it has its id and nothing else. *)
Definition sample_event (id : string) : jsval :=
  JObj [("event_id", JStr id)].

(** A parsed frame without the event array: it has no [events] property, or
    [null] in its place. *)
Definition missing_events (msg : jsval) : bool :=
  match msg with
  | JObj props =>
      match own_prop "events" props with
      | JUndefined | JNull => true
      | _ => false
      end
  | _ => true
  end.

(** A parsed frame whose [type] is the given string. *)
Definition has_type (msg : jsval) (t : string) : bool :=
  match msg with
  | JObj props => strict_eq_str (own_prop "type" props) t
  | _ => false
  end.

(** The frames that are to be dropped: not JSON, without the event array, or
    of a type other than the two of the protocol. *)
Definition dropped (e : MessageEvent) : bool :=
  match data e with
  | None => true
  | Some msg =>
      missing_events msg
      || (negb (has_type msg "history") && negb (has_type msg "new_events"))
  end.

(** The full window and the feed are arrays within their caps. *)
Definition within_caps (m : Z) (h : hook_state) : Prop :=
  exists window recent : list jsval,
    events h = Items window /\ feed h = Items recent /\
    (Z.of_nat (List.length window) <= m)%Z /\
    (List.length recent <= 20)%nat.

(** The events whose frames, if any, are protocol messages or are dropped. *)
Definition protocol_event (ev : Client.event) : Prop :=
  match ev with
  | Client.SocketMessage _ e => (exists msg, e = frame msg) \/ dropped e = true
  | _ => True
  end.

End Protocol.

(* ===================================================================== *)
(** ** What is in flight, and the frames that break the render *)
(* ===================================================================== *)

Module Observe.

Import JS Hook Client.
Local Open Scope string_scope.

(** A socket that is connecting, open or closing: its close event is still
    to come. *)
Definition live (s : readyState) : bool :=
  match s with
  | CLOSED => false
  | CONNECTING | OPEN | CLOSING => true
  end.

Definition live_sockets (c : client) : nat :=
  List.length (filter live (sockets c)).

(** The sockets that are live and the timeouts that are pending. *)
Definition in_flight (c : client) : nat :=
  (live_sockets c + List.length (timers c))%nat.

(** What every reachable state of the client satisfies. *)
Definition wired (c : client) : Prop :=
  (in_flight c <= 1)%nat /\
  (life c = Idle ->
   sockets c = [] /\ timers c = [] /\ connected (hook c) = false) /\
  (life c = Mounted ->
   in_flight c = 1%nat /\ connected (hook c) = current_is_open c) /\
  (forall i s, nth_error (sockets c) i = Some s -> live s = true ->
               wsRef c = Some i).

(** Two states with the same sockets, socket reference and phase. *)
Definition same_wiring (c c' : client) : Prop :=
  sockets c' = sockets c /\ wsRef c' = wsRef c /\ life c' = life c.

(** The first [n] connection attempts fail one after the other: socket [i]
    closes after an error, then the timeout its [onclose] set is due. *)
Definition failed_attempts (n : nat) : list event :=
  flat_map (fun i => [SocketClose i true; Timeout i]) (seq 0 n).

(** A [new_events] frame whose [events] can be indexed but not spread: a
    boolean, a number or an object. *)
Definition breaks_render (e : MessageEvent) : bool :=
  match data e with
  | Some (JObj props) =>
      strict_eq_str (own_prop "type" props) "new_events"
      && match own_prop "events" props with
         | JBool _ | JNum _ | JObj _ => true
         | JUndefined | JNull | JStr _ | JArr _ => false
         end
  | _ => false
  end.

End Observe.

(* ===================================================================== *)
(** ** components/WorldMap.jsx: the pointer handlers *)
(* ===================================================================== *)

Module WorldMap.

Import Floats.
Import Geo.
Local Open Scope float_scope.

(** [canvas.width], [canvas.height]. *)
Record canvas : Type := mkCanvas {
  width : float;
  height : float
}.

(** [canvas.getBoundingClientRect()]. *)
Record DOMRect : Type := mkRect {
  left : float;
  top : float;
  rect_width : float;
  rect_height : float
}.

(** A mouse event: [e.clientX], [e.clientY]. *)
Record MouseEvent : Type := mkMouse {
  clientX : float;
  clientY : float
}.

(** [mx] and [my], as both handlers compute them. *)
Definition pointer_x (cv : canvas) (rect : DOMRect) (e : MouseEvent)
  : float :=
  (clientX e - left rect) * (width cv / rect_width rect).

Definition pointer_y (cv : canvas) (rect : DOMRect) (e : MouseEvent)
  : float :=
  (clientY e - top rect) * (height cv / rect_height rect).

(** [handleClick]: the event [onSelect] is called with, if it is called.
    [findNearestEvent] is given no [maxDist], so its default applies. *)
Definition handleClick (events : list event) (cv : canvas) (rect : DOMRect)
                       (e : MouseEvent) : option event :=
  findNearestEvent (pointer_x cv rect e) (pointer_y cv rect e) events
                   (width cv) (height cv) DEFAULT_MAX_DIST.

(** [handleMouseMove]: the next value of [hovered]. *)
Definition handleMouseMove (events : list event) (cv : canvas)
                           (rect : DOMRect) (e : MouseEvent) : option event :=
  findNearestEvent (pointer_x cv rect e) (pointer_y cv rect e) events
                   (width cv) (height cv) 16.

End WorldMap.

(* ===================================================================== *)
(** ** utils/geoUtils.js: area labels *)
(* ===================================================================== *)

Module AreaText.

Import JS.
Local Open Scope string_scope.
Local Open Scope Q_scope.





End AreaText.

(* ===================================================================== *)
(** ** The severity configuration and the views that show whole events *)
(* ===================================================================== *)

Module Views.

Import JS AreaText.
Local Open Scope string_scope.

(** An entry of [SEVERITY_CONFIG]. *)
Record severity_config : Type := mkSeverityConfig {
  sev_color : string;
  rank : nat;
  sev_label : string
}.

Definition SEVERITY_CONFIG : list (string * severity_config) :=
  [ ("critical", {| sev_color := "#ef4444"; rank := 4; sev_label := "Critical" |});
    ("high",     {| sev_color := "#f97316"; rank := 3; sev_label := "High" |});
    ("medium",   {| sev_color := "#eab308"; rank := 2; sev_label := "Medium" |});
    ("low",      {| sev_color := "#22c55e"; rank := 1; sev_label := "Low" |}) ].


(** What [SEVERITY_CONFIG[key]] evaluates to (an object literal again, so
    the names of [Object.prototype] are found too). *)
Inductive severity_lookup : Type :=
| SevEntry (cfg : severity_config)
| SevInherited (name : string)
| SevUndefined.

Fixpoint sev_assoc (key : string) (o : list (string * severity_config))
  : option severity_config :=
  match o with
  | [] => None
  | (k, v) :: rest => if String.eqb key k then Some v else sev_assoc key rest
  end.

(** A [severity] that is absent is looked up under the key "undefined". *)
Definition severity_key (severity : option string) : string :=
  match severity with
  | Some s => s
  | None => "undefined"
  end.

Definition lookup_severity (severity : option string) : severity_lookup :=
  match sev_assoc (severity_key severity) SEVERITY_CONFIG with
  | Some cfg => SevEntry cfg
  | None =>
      if existsb (String.eqb (severity_key severity)) Render.Object_prototype
      then SevInherited (severity_key severity)
      else SevUndefined
  end.

(** [found?.color]: [None] is [undefined]. *)
Definition color_of (found : severity_lookup) : option string :=
  match found with
  | SevEntry cfg => Some (sev_color cfg)
  | SevInherited _ | SevUndefined => None
  end.

(** [s || fallback] for a string that may be [undefined]. *)
Definition string_or (s : option string) (fallback : string) : string :=
  match s with
  | Some v => if String.eqb v "" then fallback else v
  | None => fallback
  end.

(** The fields of an event the feed row and the detail card read besides
    its type. *)
Record event : Type := mkEvent {
  event_id : string;
  event_type : string;
  severity : option string;
  confidence : Q;
  area_hectares : option Q;
  ndvi_delta : option Q;
  timestamp : Q
}.

(** EventFeed: [SEVERITY_CONFIG[evt.severity]?.color || "#fff"]. *)
Definition feed_severity_color (evt : event) : string :=
  string_or (color_of (lookup_severity (severity evt))) "#fff".

(** EventGrid: [SEVERITY_CONFIG[evt.severity]?.color], with no fallback. *)
Definition grid_severity_color (evt : event) : option string :=
  color_of (lookup_severity (severity evt)).




End Views.

(* ===================================================================== *)
(** ** components/BreakdownBars.jsx *)
(* ===================================================================== *)

Module Breakdown.

Import Render.
Local Open Scope string_scope.

(** [events.filter((e) => e.event_type === type).length]. *)
Definition count_of (events : list event) (type : string) : nat :=
  List.length (filter (fun e => String.eqb (event_type e) type) events).

(** [events.length || 1]. *)
Definition total (events : list event) : nat :=
  match List.length events with
  | O => 1
  | n => n
  end.

(** The object [counts]: a count under each key of [EVENT_CONFIG]. *)
Definition counts (events : list event) : list (string * nat) :=
  map (fun type => (type, count_of events type)) (map fst EVENT_CONFIG).

(** [counts[type] || 0]. *)
Fixpoint count_or_0 (type : string) (o : list (string * nat)) : nat :=
  match o with
  | [] => 0
  | (k, n) :: rest => if String.eqb type k then n else count_or_0 type rest
  end.

(** A bar: its key, what is written on it, and the count it shows. *)
Record bar : Type := mkBar {
  bar_type : string;
  bar_label : string;
  bar_color : string;
  bar_count : nat
}.

(** One bar for each entry of [EVENT_CONFIG], in its order. *)
Definition BreakdownBars (events : list event) : list bar :=
  map (fun entry : string * type_config =>
         {| bar_type := fst entry;
            bar_label := label (snd entry);
            bar_color := color (snd entry);
            bar_count := count_or_0 (fst entry) (counts events) |})
      EVENT_CONFIG.

End Breakdown.

(* ===================================================================== *)
(** ** App.jsx: the filter, the pills and the feed panel *)
(* ===================================================================== *)

Module AppView.

Import JS Hook.
Local Open Scope string_scope.

(** [filter === "all" ? events : events.filter(e => e.event_type === filter)]. *)
Definition filteredEvents (filter : string) (events : list Render.event)
  : list Render.event :=
  if String.eqb filter "all" then events
  else List.filter (fun e => String.eqb (Render.event_type e) filter) events.

(** The keys of the filter pills: "all", then the keys of [EVENT_CONFIG]. *)
Definition pills : list string := "all" :: map fst Render.EVENT_CONFIG.

(** The number [cnt] a pill shows. *)
Definition pill_count (key : string) (events : list Render.event) : nat :=
  if String.eqb key "all" then List.length events
  else List.length
         (List.filter (fun e => String.eqb (Render.event_type e) key) events).

(** [w.slice(0, 20)] on a stored window. *)
Definition window_slice20 (w : window) : window :=
  match w with
  | Items items => Items (slice0 items 20)
  | Text s => Text (substring 0 (slice_end (String.length s) 20) s)
  end.

(** What [EventFeed] is given: [feed.length > 0 ? feed : events.slice(0, 20)],
    [events] being the list [App] has chosen. *)
Definition feed_panel (h : hook_state) (mockEvents : list jsval) : window :=
  if length_positive (feed h) then feed h
  else window_slice20 (App.events h mockEvents).

End AppView.

(* ===================================================================== *)
(** ** hooks/useStats.js: one poll *)
(* ===================================================================== *)

Module Stats.

Import JS.
Local Open Scope string_scope.

(** A response: its [ok] flag, and what [json()] resolves to ([None]: the
    body is not JSON and [json()] rejects). *)
Record Response : Type := mkResponse {
  ok : bool;
  json : option jsval
}.

(** The three [useState] cells of [useStats]. *)
Record stats_state : Type := mkStats {
  stats : jsval;
  worldModel : jsval;
  loading : bool
}.

Definition initial : stats_state :=
  {| stats := JObj [ ("tiles_processed", JNum 0); ("events_detected", JNum 0);
                     ("tiles_per_second", JNum 0);
                     ("pipeline_latency_ms", JNum 0);
                     ("uptime_seconds", JNum 0) ];
     worldModel := JObj [];
     loading := true |}.

Definition setStats (v : jsval) (s : stats_state) : stats_state :=
  {| stats := v; worldModel := worldModel s; loading := loading s |}.

Definition setWorldModel (v : jsval) (s : stats_state) : stats_state :=
  {| stats := stats s; worldModel := v; loading := loading s |}.

Definition setLoading (b : bool) (s : stats_state) : stats_state :=
  {| stats := stats s; worldModel := worldModel s; loading := b |}.

(** The [try] block of [fetchStats]: the state it has reached, and whether
    it completed ([false]: a promise rejected and control went to [catch]).
    A fetch that is [None] rejected (the network failed); [Promise.all]
    rejects when either did. *)
Definition fetch_try (statsFetch modelFetch : option Response)
                     (s : stats_state) : stats_state * bool :=
  match statsFetch, modelFetch with
  | Some statsRes, Some modelRes =>
      let after_stats :=
        if ok statsRes then
          match json statsRes with
          | Some v => (setStats v s, true)
          | None => (s, false)
          end
        else (s, true) in
      if snd after_stats then
        if ok modelRes then
          match json modelRes with
          | Some v => (setWorldModel v (fst after_stats), true)
          | None => (fst after_stats, false)
          end
        else (fst after_stats, true)
      else after_stats
  | _, _ => (s, false)
  end.

(** [fetchStats]: the [catch] block is empty, and [finally] clears
    [loading]. *)
Definition fetchStats (statsFetch modelFetch : option Response)
                      (s : stats_state) : stats_state :=
  setLoading false (fst (fetch_try statsFetch modelFetch s)).

End Stats.

(* ===================================================================== *)
(** * Theorems *)
(* ===================================================================== *)

(** ** The windows of the stream hook *)

Module StreamProps.

Import JS Hook Protocol.
Local Open Scope string_scope.
Local Open Scope nat_scope.

Lemma firstn_min_length {A} (n : nat) (l : list A) :
  firstn (Nat.min n (List.length l)) l = firstn n l.
Proof.
  destruct (Nat.le_ge_cases n (List.length l)) as [Hle | Hge].
  - now rewrite Nat.min_l.
  - rewrite Nat.min_r by assumption.
    now rewrite firstn_all, firstn_all2.
Qed.

(** For a cap that is not negative, [slice(0, cap)] keeps the first [cap]
    elements. *)
Lemma slice0_firstn {A} (l : list A) (e : Z) :
  (0 <= e)%Z -> slice0 l e = firstn (Z.to_nat e) l.
Proof.
  intros He. unfold slice0, slice_end.
  destruct (Z.ltb_spec e 0) as [Hneg | _]; [lia |].
  rewrite Z2Nat.inj_min, Nat2Z.id.
  apply firstn_min_length.
Qed.

Lemma slice0_length_le {A} (l : list A) (e : Z) :
  (0 <= e)%Z -> List.length (slice0 l e) <= Z.to_nat e.
Proof.
  intros He. rewrite slice0_firstn by assumption. apply firstn_le_length.
Qed.

(** Capping twice, with a batch put in front in between, is capping once. *)
Lemma firstn_app_firstn {A} (n : nat) (b l : list A) :
  firstn n (b ++ firstn n l) = firstn n (b ++ l).
Proof.
  rewrite !firstn_app. f_equal.
  rewrite firstn_firstn. f_equal. lia.
Qed.

(** What one snapshot frame does, whatever the state. *)
Lemma receive_history (m : Z) (batch : list jsval) (h : hook_state) :
  receive m (history batch) h =
  Ok {| events := Items (slice0 batch m); feed := Items (slice0 batch 20);
        connected := connected h; latestEvent := latestEvent h |}.
Proof. reflexivity. Qed.

(** What one delta frame does to a state whose windows are arrays. *)
Lemma receive_new_events (m : Z) (batch p f : list jsval) (c : bool)
                         (l : jsval) :
  receive m (new_events batch)
          {| events := Items p; feed := Items f; connected := c;
             latestEvent := l |} =
  Ok {| events := Items (slice0 (batch ++ p) m);
        feed := Items (slice0 (batch ++ f) 20);
        connected := c;
        latestEvent := js_or (nth 0 batch JUndefined) JNull |}.
Proof. reflexivity. Qed.

(** X17.  A frame is read through its [type] and [events] properties only: an
    object that has the two of a protocol frame, and whatever else, is
    processed as that frame. *)
Lemma receive_reads_type_and_events
    (m : Z) (props : list (string * jsval)) (batch : list jsval)
    (h : hook_state) :
  own_prop "events" props = JArr batch ->
  (own_prop "type" props = JStr "history" ->
   receive m {| data := Some (JObj props) |} h = receive m (history batch) h)
  /\
  (own_prop "type" props = JStr "new_events" ->
   receive m {| data := Some (JObj props) |} h
   = receive m (new_events batch) h).
Proof.
  intros Hev.
  split; intros Hty;
    unfold receive, onmessage, try_catch, onmessage_try, bind, lift,
      JSON_parse;
    cbn [data get_field]; rewrite Hty, Hev; reflexivity.
Qed.

Lemma js_or_first (batch : list jsval) :
  js_or (nth 0 batch JUndefined) JNull = first_or_null batch.
Proof. destruct batch as [| e rest]; reflexivity. Qed.

(** The state a sequence of protocol messages leads to, from a state whose
    windows are the capped arrival order so far. *)
Lemma receive_all_protocol (m : Z) (msgs : list message) :
  (0 <= m)%Z ->
  forall (seen : list jsval) (c : bool) (l : jsval),
    receive_all m (map frame msgs)
      {| events := Items (firstn (Z.to_nat m) seen);
         feed := Items (firstn 20 seen);
         connected := c; latestEvent := l |} =
    Ok {| events := Items (firstn (Z.to_nat m) (fold_left arrive msgs seen));
          feed := Items (firstn 20 (fold_left arrive msgs seen));
          connected := c;
          latestEvent := fold_left latest_after msgs l |}.
Proof.
  intros Hm. induction msgs as [| msg rest IH]; intros seen c l.
  - reflexivity.
  - destruct msg as [batch | batch]; cbn [map frame receive_all].
    + rewrite receive_history. cbn [rbind].
      rewrite !slice0_firstn by lia.
      change (Z.to_nat 20) with 20.
      apply IH.
    + rewrite receive_new_events. cbn [rbind].
      rewrite !slice0_firstn by lia.
      change (Z.to_nat 20) with 20.
      rewrite !firstn_app_firstn, js_or_first.
      apply IH.
Qed.

Lemma receive_all_initial (m : Z) (msgs : list message) :
  (0 <= m)%Z ->
  receive_all m (map frame msgs) initial =
  Ok {| events := Items (firstn (Z.to_nat m) (arrival_order msgs));
        feed := Items (firstn 20 (arrival_order msgs));
        connected := false;
        latestEvent := expected_latest msgs |}.
Proof.
  intros Hm.
  pose proof (receive_all_protocol m msgs Hm [] false JNull) as H.
  rewrite !firstn_nil in H. exact H.
Qed.

(** Any sequence of protocol messages, for any [maxEvents]: the windows stay
    arrays, the flag is untouched, and [latestEvent] follows the deltas. *)
Lemma receive_all_arrays (m : Z) (msgs : list message) :
  forall (p f : list jsval) (c : bool) (l : jsval),
  exists p' f' : list jsval,
    receive_all m (map frame msgs)
      {| events := Items p; feed := Items f; connected := c;
         latestEvent := l |} =
    Ok {| events := Items p'; feed := Items f'; connected := c;
          latestEvent := fold_left latest_after msgs l |}.
Proof.
  induction msgs as [| msg rest IH]; intros p f c l.
  - exists p, f. reflexivity.
  - destruct msg as [batch | batch]; cbn [map frame receive_all].
    + rewrite receive_history. cbn [rbind]. apply IH.
    + rewrite receive_new_events. cbn [rbind].
      rewrite js_or_first. apply IH.
Qed.

(** The handler's [try]/[catch] covers its whole body: nothing it is given
    makes it throw. *)
Lemma onmessage_never_throws (m : Z) (e : MessageEvent) (w : effects) :
  fst (onmessage m e w) = Ok tt.
Proof.
  unfold onmessage, try_catch.
  destruct (onmessage_try m e w) as [[[] | err] w']; reflexivity.
Qed.

(** A dropped frame queues no update; a frame that made the body throw
    leaves one line on the console. *)
Lemma onmessage_dropped (m : Z) (e : MessageEvent) (w : effects) :
  dropped e = true ->
  queue (snd (onmessage m e w)) = queue w.
Proof.
  destruct e as [[msg |]]; [| reflexivity].
  unfold dropped, onmessage, try_catch, onmessage_try, bind, lift, JSON_parse.
  cbn [data].
  destruct msg as [| | b | q | s | items | props]; try reflexivity.
  cbn [missing_events has_type get_field].
  destruct (strict_eq_str (own_prop "type" props) "history") eqn:Hh.
  - cbn [negb andb]. rewrite Bool.orb_false_r.
    destruct (own_prop "events" props); try discriminate; reflexivity.
  - destruct (strict_eq_str (own_prop "type" props) "new_events") eqn:Hn.
    + cbn [negb andb]. rewrite Bool.orb_false_r.
      destruct (own_prop "events" props); try discriminate; reflexivity.
    + reflexivity.
Qed.

Lemma receive_dropped (m : Z) (e : MessageEvent) (h : hook_state) :
  dropped e = true -> receive m e h = Ok h.
Proof.
  intros Hd. unfold receive.
  rewrite (onmessage_dropped m e no_effects Hd). reflexivity.
Qed.

(** C1.  After any sequence of protocol messages the hook is in a state [h]
    whose two windows are arrays, and from there: a snapshot ([history])
    replaces the full window by its batch cut to [maxEvents] and the feed by
    its batch cut to 20; a delta ([new_events]) puts its batch in front of
    the full window and of the feed and cuts them to [maxEvents] and to 20.
    With room for four events, snapshot [A,B,C] then delta [D] give the full
    window [D,A,B,C], and a snapshot [X,Y] after that gives exactly [X,Y]. *)
Theorem C1_snapshot_replaces_delta_prepends
    (maxEvents : Z) (msgs : list message) :
  (0 <= maxEvents)%Z ->
  exists (h : hook_state) (window recent : list jsval),
    receive_all maxEvents (map frame msgs) initial = Ok h /\
    events h = Items window /\
    feed h = Items recent /\
    (forall batch,
        receive maxEvents (history batch) h =
        Ok {| events := Items (firstn (Z.to_nat maxEvents) batch);
              feed := Items (firstn 20 batch);
              connected := connected h;
              latestEvent := latestEvent h |}) /\
    (forall batch,
        exists h',
          receive maxEvents (new_events batch) h = Ok h' /\
          events h' = Items (firstn (Z.to_nat maxEvents) (batch ++ window)) /\
          feed h' = Items (firstn 20 (batch ++ recent))) /\
    (forall A B C D X Y,
        (4 <= maxEvents)%Z ->
        exists h1 h2,
          receive_all maxEvents [history [A; B; C]; new_events [D]] h
            = Ok h1 /\
          events h1 = Items [D; A; B; C] /\
          receive maxEvents (history [X; Y]) h1 = Ok h2 /\
          events h2 = Items [X; Y]).
Proof.
  intros Hm.
  rewrite (receive_all_initial maxEvents msgs Hm).
  eexists; exists (firstn (Z.to_nat maxEvents) (arrival_order msgs)),
                  (firstn 20 (arrival_order msgs)).
  split; [reflexivity |]. cbn [events feed connected latestEvent].
  repeat split.
  - intros batch. rewrite receive_history.
    now rewrite !slice0_firstn by lia.
  - intros batch. rewrite receive_new_events. eexists.
    split; [reflexivity |]. cbn [events feed].
    now rewrite !slice0_firstn by lia.
  - intros A B C D X Y H4.
    assert (Hcap : exists k, Z.to_nat maxEvents = 4 + k)
      by (exists (Z.to_nat maxEvents - 4); lia).
    destruct Hcap as [k Hk].
    cbn [receive_all]. rewrite receive_history. cbn [rbind].
    rewrite receive_new_events. cbn [rbind].
    do 2 eexists. split; [reflexivity |]. cbn [events].
    rewrite receive_history. cbn [events].
    rewrite !slice0_firstn by lia. rewrite Hk. cbn.
    repeat split; try reflexivity.
    now destruct k.
Qed.

Lemma C1_witness :
  (0 <= 200)%Z /\
  exists h : hook_state,
    receive_all 200
      (map frame [Snapshot [JStr "A"; JStr "B"; JStr "C"]; Delta [JStr "D"]])
      initial = Ok h /\
    events h = Items [JStr "D"; JStr "A"; JStr "B"; JStr "C"].
Proof.
  split; [lia |].
  destruct (C1_snapshot_replaces_delta_prepends 200
              [Snapshot [JStr "A"; JStr "B"; JStr "C"]; Delta [JStr "D"]])
    as (h & window & recent & Hrun & Hw & _); [lia |].
  exists h. split; [exact Hrun |].
  vm_compute in Hrun. injection Hrun as <-. reflexivity.
Defined.

(** C2.  After any sequence of snapshot and delta messages the full window
    is an array of at most [maxEvents] entries and the feed one of at most
    20; each is the front of the arrival order (newest arrival first); and a
    further delta puts its own events, in order, before events that were
    already held. *)
Theorem C2_window_caps (maxEvents : Z) (msgs : list message) :
  (0 <= maxEvents)%Z ->
  exists (h : hook_state) (window recent : list jsval),
    receive_all maxEvents (map frame msgs) initial = Ok h /\
    events h = Items window /\
    feed h = Items recent /\
    (Z.of_nat (List.length window) <= maxEvents)%Z /\
    List.length recent <= 20 /\
    window = firstn (Z.to_nat maxEvents) (arrival_order msgs) /\
    recent = firstn 20 (arrival_order msgs) /\
    (forall batch,
        exists h' j k,
          receive maxEvents (new_events batch) h = Ok h' /\
          events h' = Items (firstn (Z.to_nat maxEvents) batch
                              ++ firstn j window) /\
          feed h' = Items (firstn 20 batch ++ firstn k recent)).
Proof.
  intros Hm.
  rewrite (receive_all_initial maxEvents msgs Hm).
  eexists; exists (firstn (Z.to_nat maxEvents) (arrival_order msgs)),
                  (firstn 20 (arrival_order msgs)).
  split; [reflexivity |]. cbn [events feed].
  repeat split.
  - pose proof (firstn_le_length (Z.to_nat maxEvents) (arrival_order msgs)).
    lia.
  - apply firstn_le_length.
  - intros batch. rewrite receive_new_events.
    eexists. exists (Z.to_nat maxEvents - List.length batch),
                    (20 - List.length batch).
    split; [reflexivity |]. cbn [events feed].
    rewrite !slice0_firstn by lia.
    change (Z.to_nat 20) with 20.
    now rewrite !firstn_app.
Qed.

Lemma C2_witness :
  (0 <= 2)%Z /\
  exists h : hook_state,
    receive_all 2
      (map frame [Snapshot [JStr "A"; JStr "B"; JStr "C"]; Delta [JStr "D"]])
      initial = Ok h /\
    events h = Items [JStr "D"; JStr "A"].
Proof.
  split; [lia |].
  destruct (C2_window_caps 2
              [Snapshot [JStr "A"; JStr "B"; JStr "C"]; Delta [JStr "D"]])
    as (h & window & recent & Hrun & _); [lia |].
  exists h. split; [exact Hrun |].
  vm_compute in Hrun. injection Hrun as <-. reflexivity.
Defined.

(** C7 fails on the code.  A delta that carries the event [A] makes
    [latestEvent] that event.  A following delta without events leaves [A]
    at the front of both windows, where the event received last stands, and
    sets [latestEvent] to [null]: it no longer is the event received
    last. *)
Theorem C7_empty_delta_resets_latestEvent :
  exists h h' : hook_state,
    receive 200 (new_events [sample_event "A"]) initial = Ok h /\
    latestEvent h = sample_event "A" /\
    receive 200 (new_events []) h = Ok h' /\
    events h' = Items [sample_event "A"] /\
    feed h' = Items [sample_event "A"] /\
    latestEvent h' = JNull /\
    latestEvent h' <> sample_event "A".
Proof.
  do 2 eexists.
  split; [reflexivity |]. split; [reflexivity |].
  split; [reflexivity |]. split; [reflexivity |].
  split; [reflexivity |]. split; [reflexivity |].
  discriminate.
Qed.

(** X18.  What the handler does with [latestEvent].  After any sequence of
    protocol messages it is [newEvts[0] || null] for the batch of the last
    delta of the sequence, and [null] when there was no delta; from there,
    a delta sets it to [newEvts[0] || null] for its own batch: to an event
    object at the head of the batch, and to [null] when the batch is
    empty. *)
Lemma latestEvent_after_messages (maxEvents : Z) (msgs : list message) :
  exists h : hook_state,
    receive_all maxEvents (map frame msgs) initial = Ok h /\
    latestEvent h = expected_latest msgs /\
    (forall batch,
        exists h',
          receive maxEvents (new_events batch) h = Ok h' /\
          latestEvent h' = first_or_null batch) /\
    (forall props rest,
        exists h',
          receive maxEvents (new_events (JObj props :: rest)) h = Ok h' /\
          latestEvent h' = JObj props) /\
    (exists h',
        receive maxEvents (new_events []) h = Ok h' /\
        latestEvent h' = JNull).
Proof.
  destruct (receive_all_arrays maxEvents msgs [] [] false JNull)
    as (p & f & Hrun).
  eexists. split; [exact Hrun |]. cbn [latestEvent].
  split; [reflexivity |].
  assert (Hdelta : forall batch,
             exists h',
               receive maxEvents (new_events batch)
                 {| events := Items p; feed := Items f; connected := false;
                    latestEvent := fold_left latest_after msgs JNull |}
               = Ok h' /\
               latestEvent h' = first_or_null batch).
  { intros batch. rewrite receive_new_events. eexists.
    split; [reflexivity |]. cbn [latestEvent]. apply js_or_first. }
  repeat split.
  - exact Hdelta.
  - intros props rest. exact (Hdelta (JObj props :: rest)).
  - exact (Hdelta []).
Qed.

(** C10.  A frame whose [type] is [history] leaves [latestEvent] and
    [connected] as they were, whatever else it holds and whatever the state;
    so after snapshots alone [latestEvent] is still [null]. *)
Theorem C10_history_keeps_latest_and_connected :
  (forall (maxEvents : Z) (props : list (string * jsval)) (h : hook_state),
      own_prop "type" props = JStr "history" ->
      exists h',
        receive maxEvents {| data := Some (JObj props) |} h = Ok h' /\
        latestEvent h' = latestEvent h /\
        connected h' = connected h) /\
  (forall (maxEvents : Z) (batches : list (list jsval)),
      exists h,
        receive_all maxEvents (map history batches) initial = Ok h /\
        latestEvent h = JNull /\
        connected h = false).
Proof.
  split.
  - intros maxEvents props h Hty.
    unfold receive, onmessage, try_catch, onmessage_try, bind, lift,
      JSON_parse, set_state.
    cbn [data get_field]. rewrite Hty. cbn [strict_eq_str String.eqb].
    replace (String.eqb "history" "history") with true by reflexivity.
    destruct (own_prop "events" props) as [| | b | q | s | items | ps];
      cbn; eexists; (split; [reflexivity |]); split; reflexivity.
  - intros maxEvents batches.
    destruct (receive_all_arrays maxEvents (map Snapshot batches)
                [] [] false JNull) as (p & f & Hrun).
    rewrite map_map in Hrun. cbn [frame] in Hrun.
    eexists. split; [exact Hrun |]. cbn [latestEvent connected].
    split; [| reflexivity].
    clear Hrun. generalize JNull.
    induction batches as [| b rest IH]; intros l; [reflexivity |].
    cbn [map fold_left latest_after]. apply IH.
Qed.

Lemma C10_witness :
  own_prop "type" [("type", JStr "history"); ("events", JArr [JStr "A"])]
    = JStr "history" /\
  exists h',
    receive 200
      {| data := Some (JObj [("type", JStr "history");
                             ("events", JArr [JStr "A"])]) |}
      {| events := Items []; feed := Items []; connected := true;
         latestEvent := JStr "D" |} = Ok h' /\
    latestEvent h' = JStr "D" /\
    connected h' = true.
Proof.
  split; [reflexivity |].
  apply (proj1 C10_history_keeps_latest_and_connected). reflexivity.
Defined.

(** A frame that is not JSON is reported on the console, once. *)
Lemma onmessage_reports_parse_failure (m : Z) (w : effects) :
  onmessage m {| data := None |} w
  = (Ok tt, {| queue := queue w;
               console := console w ++ ["[WS] Parse error:"] |}).
Proof. reflexivity. Qed.

End StreamProps.

(** ** The connection: dropped frames, teardown *)

Module ClientProps.

Import JS Hook Protocol Client.
Import StreamProps.
Local Open Scope string_scope.
Local Open Scope nat_scope.

Lemma commit_nothing (c : client) :
  exists c',
    commit [] c = Ok c' /\
    hook c' = hook c /\ sockets c' = sockets c /\ wsRef c' = wsRef c /\
    timers c' = timers c /\ reconnectTimer c' = reconnectTimer c /\
    life c' = life c /\ attempts c' = attempts c /\ log c' = log c.
Proof.
  unfold commit. destruct (life c) eqn:Hlife; cbn [render rbind];
    eexists; (split; [reflexivity |]); cbn; repeat split; auto.
Qed.

(** C6.  A frame that is not JSON, or that has no [events] property, or
    whose [type] is neither [history] nor [new_events]: the handler returns
    normally and queues no update; the four state cells are what they were;
    and on an open socket the step is taken, the socket is still open, and
    every socket, the socket reference and the timers are untouched. *)
Theorem C6_dropped_frames_change_nothing (cfg : config) (e : MessageEvent) :
  dropped e = true ->
  (forall w : effects,
      fst (onmessage (maxEvents cfg) e w) = Ok tt /\
      queue (snd (onmessage (maxEvents cfg) e w)) = queue w) /\
  (forall h : hook_state, receive (maxEvents cfg) e h = Ok h) /\
  (forall (i : nat) (c : client),
      nth_error (sockets c) i = Some OPEN ->
      exists c',
        step cfg (SocketMessage i e) c = Next c' /\
        hook c' = hook c /\
        nth_error (sockets c') i = Some OPEN /\
        sockets c' = sockets c /\
        wsRef c' = wsRef c /\
        timers c' = timers c /\
        reconnectTimer c' = reconnectTimer c /\
        life c' = life c /\
        attempts c' = attempts c).
Proof.
  intros Hd. split; [| split].
  - intros w. split.
    + apply onmessage_never_throws.
    + now apply onmessage_dropped.
  - intros h. now apply receive_dropped.
  - intros i c Hopen. cbn [step]. rewrite Hopen.
    rewrite (onmessage_dropped (maxEvents cfg) e no_effects Hd).
    cbn [queue no_effects].
    destruct (commit_nothing
                (console_log
                   (console (snd (onmessage (maxEvents cfg) e no_effects))) c))
      as (c' & Hc & Hh & Hs & Hw & Ht & Hr & Hl & Ha & _).
    rewrite Hc. exists c'. cbn in Hh, Hs, Hw, Ht, Hr, Hl, Ha.
    rewrite Hs. repeat split; auto.
Qed.

Lemma C6_witness :
  dropped {| data := Some (JObj [("type", JStr "new_events")]) |} = true /\
  dropped {| data := None |} = true /\
  receive 200 {| data := Some (JObj [("type", JStr "new_events")]) |} initial
    = Ok initial /\
  receive 200 {| data := None |} initial = Ok initial.
Proof.
  split; [reflexivity |]. split; [reflexivity |]. split.
  - apply (C6_dropped_frames_change_nothing default_config
             {| data := Some (JObj [("type", JStr "new_events")]) |}).
    reflexivity.
  - apply (C6_dropped_frames_change_nothing default_config
             {| data := None |}).
    reflexivity.
Defined.

(** C5 fails on the code.  The component mounts, its socket opens, the
    component unmounts: the cleanup leaves no timer pending and the socket
    closing.  When the socket is closed its [onclose] runs all the same and
    sets a new timer, and when that timer is due [connect] constructs a
    second socket: a reconnect after teardown. *)
Theorem C5_reconnect_after_teardown :
  exists torn closed again : client,
    run default_config
        [Mount; SocketOpen 0; Unmount] start = Next torn /\
    life torn = TornDown /\
    timers torn = [] /\
    sockets torn = [CLOSING] /\
    attempts torn = 1 /\
    step default_config (SocketClose 0 false) torn
      = Next closed /\
    timers closed = [0] /\
    step default_config (Timeout 0) closed
      = Next again /\
    life again = TornDown /\
    sockets again = [CLOSED; CONNECTING] /\
    attempts again = 2.
Proof.
  do 3 eexists. repeat split.
Qed.

(** X6.  The part of C5 the code does keep: when the component is torn down
    while no socket is connecting, open or closing, and the only timeout
    pending is the one [reconnectTimer] holds, nothing can happen afterwards,
    so no reconnect either. *)
Lemma teardown_is_final_when_nothing_is_live
    (cfg : config) (c torn : client) :
  step cfg Unmount c = Next torn ->
  Forall (eq CLOSED) (sockets c) ->
  (forall t, In t (timers c) -> reconnectTimer c = Some t) ->
  forall ev, step cfg ev torn = Disabled.
Proof.
  intros Hstep Hclosed Honly.
  cbn [step] in Hstep.
  destruct (life c) eqn:Hlife; try discriminate.
  injection Hstep as <-.
  assert (Hsock : forall i,
             nth_error (sockets c) i = Some CLOSED \/
             nth_error (sockets c) i = None).
  { intros i. destruct (nth_error (sockets c) i) as [r |] eqn:Hn; auto.
    left. f_equal.
    rewrite Forall_forall in Hclosed. symmetry. apply Hclosed.
    eapply nth_error_In; eauto. }
  assert (Htimers : timers (clear_reconnect c) = []).
  { unfold clear_reconnect.
    destruct (reconnectTimer c) as [id |] eqn:Hid; cbn [timers with_timers].
    - destruct (timers c) as [| t rest] eqn:Ht; [reflexivity |].
      assert (Hall : forall t', In t' (t :: rest) -> t' = id).
      { intros t' Hin. specialize (Honly t' Hin). congruence. }
      clear Ht Honly. induction (t :: rest) as [| a l IH]; [reflexivity |].
      cbn [filter]. rewrite (Hall a (or_introl eq_refl)), Nat.eqb_refl.
      cbn [negb]. apply IH. intros t' Hin. apply Hall. now right.
    - destruct (timers c) as [| t rest]; [reflexivity |].
      specialize (Honly t (or_introl eq_refl)). discriminate. }
  assert (Hsame : sockets (clear_reconnect c) = sockets c).
  { unfold clear_reconnect. now destruct (reconnectTimer c). }
  assert (Hcleanup : sockets (cleanup c) = sockets c /\
                     timers (cleanup c) = []).
  { unfold cleanup. destruct (wsRef (clear_reconnect c)) as [i |]; [| auto].
    unfold close. rewrite Hsame.
    destruct (Hsock i) as [-> | ->]; auto. }
  destruct Hcleanup as [Hs Ht].
  intros ev. destruct ev as [| | i | i e | i failed | id];
    cbn [step with_life life sockets timers]; try reflexivity;
    rewrite ?Hs, ?Ht; try reflexivity;
    destruct (Hsock i) as [-> | ->]; reflexivity.
Qed.

(** Such a teardown happens: the first connection fails, and the component
    unmounts while the retry is pending. *)
Example teardown_while_waiting_to_retry :
  exists c torn : client,
    run default_config
        [Mount; SocketClose 0 true] start = Next c /\
    sockets c = [CLOSED] /\ timers c = [0] /\ reconnectTimer c = Some 0 /\
    step default_config Unmount c = Next torn /\
    timers torn = [] /\
    step default_config (Timeout 0) torn = Disabled.
Proof.
  do 2 eexists. repeat split.
Qed.

(** *** The caps, for every run of the client *)

Lemma hook_schedule_reconnect c : hook (schedule_reconnect c) = hook c.
Proof. reflexivity. Qed.

Lemma hook_clear_reconnect c : hook (clear_reconnect c) = hook c.
Proof. unfold clear_reconnect. now destruct (reconnectTimer c). Qed.

Lemma hook_close i c : hook (close i c) = hook c.
Proof.
  unfold close. destruct (nth_error (sockets c) i) as [[ | | | ] |];
    reflexivity.
Qed.

Lemma hook_connect cfg c : hook (connect cfg c) = hook c.
Proof.
  unfold connect. destruct (current_is_open c); [reflexivity |].
  destruct (url_ok cfg); reflexivity.
Qed.

Lemma hook_cleanup c : hook (cleanup c) = hook c.
Proof.
  unfold cleanup. destruct (wsRef (clear_reconnect c)).
  - now rewrite hook_close, hook_clear_reconnect.
  - apply hook_clear_reconnect.
Qed.

Lemma caps_setConnected m b c :
  within_caps m (hook c) -> within_caps m (hook (setConnected b c)).
Proof.
  unfold setConnected. intros Hcaps. destruct (life c); exact Hcaps.
Qed.

Lemma caps_receive (m : Z) (e : MessageEvent) (h : hook_state) :
  (0 <= m)%Z ->
  (exists msg, e = frame msg) \/ dropped e = true ->
  within_caps m h ->
  exists h', receive m e h = Ok h' /\ within_caps m h'.
Proof.
  intros Hm [[msg ->] | Hd] Hcaps.
  - destruct h as [ev fd cn lt].
    destruct Hcaps as (w & r & Hw & Hr & _). cbn in Hw, Hr. subst ev fd.
    destruct msg as [batch | batch]; cbn [frame].
    + rewrite receive_history. eexists. split; [reflexivity |].
      do 2 eexists. cbn [events feed]. repeat split.
      * pose proof (slice0_length_le batch m Hm). lia.
      * apply (slice0_length_le batch 20). lia.
    + rewrite receive_new_events. eexists. split; [reflexivity |].
      do 2 eexists. cbn [events feed]. repeat split.
      * pose proof (slice0_length_le (batch ++ w) m Hm). lia.
      * apply (slice0_length_le (batch ++ r) 20). lia.
  - exists h. split; [now apply receive_dropped | exact Hcaps].
Qed.

(** No step of the client takes a window beyond its cap, and no protocol
    frame makes the render fail. *)
Lemma step_keeps_caps (cfg : config) (ev : event) (c : client) :
  (0 <= maxEvents cfg)%Z ->
  protocol_event ev ->
  within_caps (maxEvents cfg) (hook c) ->
  step cfg ev c = Disabled \/
  exists c', step cfg ev c = Next c' /\ within_caps (maxEvents cfg) (hook c').
Proof.
  intros Hm Hev Hcaps.
  destruct ev as [| | i | i e | i failed | id]; cbn [step].
  - destruct (life c); auto. right. eexists. split; [reflexivity |].
    now rewrite hook_connect.
  - destruct (life c); auto. right. eexists. split; [reflexivity |].
    cbn [with_life hook]. now rewrite hook_cleanup.
  - destruct (nth_error (sockets c) i) as [[ | | | ] |]; auto.
    right. eexists. split; [reflexivity |].
    unfold onopen. rewrite hook_clear_reconnect. cbn [console_log hook].
    now apply caps_setConnected.
  - destruct (nth_error (sockets c) i) as [[ | | | ] |]; auto;
      right; unfold commit; cbn [console_log life hook];
      destruct (life c);
      try (eexists; split; [reflexivity | exact Hcaps]);
      destruct (caps_receive (maxEvents cfg) e (hook c) Hm Hev Hcaps)
        as (h' & Hrecv & Hcaps');
      unfold receive in Hrecv; rewrite Hrecv; cbn [rbind];
      eexists; (split; [reflexivity | exact Hcaps']).
  - destruct (nth_error (sockets c) i) as [[ | | | ] |]; auto;
      right; (eexists; split; [reflexivity |]);
      unfold onclose; rewrite hook_schedule_reconnect;
      cbn [console_log hook]; apply caps_setConnected;
      destruct failed; unfold onerror; rewrite ?hook_close; exact Hcaps.
  - destruct (existsb (Nat.eqb id) (timers c)); auto.
    right. eexists. split; [reflexivity |]. now rewrite hook_connect.
Qed.

(** X7.  So the caps hold after every run of the client from its start, whatever
    the order of mounts, opens, frames, closes and timeouts. *)
Lemma run_keeps_caps (cfg : config) (evs : list event) :
  (0 <= maxEvents cfg)%Z ->
  Forall protocol_event evs ->
  forall c,
    within_caps (maxEvents cfg) (hook c) ->
    run cfg evs c = Disabled \/
    exists c', run cfg evs c = Next c' /\
               within_caps (maxEvents cfg) (hook c').
Proof.
  intros Hm Hall. induction Hall as [| ev rest Hev _ IH]; intros c Hcaps.
  - right. exists c. split; [reflexivity | exact Hcaps].
  - cbn [run].
    destruct (step_keeps_caps cfg ev c Hm Hev Hcaps)
      as [-> | (c' & -> & Hcaps')]; [now left |].
    now apply IH.
Qed.

End ClientProps.

(** ** The event source of the views *)

Module AppProps.

Import JS Hook Protocol Client.
Local Open Scope string_scope.

(** C9, as the claim states it, fails both ways.  After a snapshot has
    arrived and the socket has closed, the hook is disconnected and the views
    are still given the stream's window, not the mock data; and once the
    socket is open but before any event has arrived, the hook is connected
    and the views are given the mock data, not the (empty) window. *)
Lemma C9_source_does_not_follow_connected :
  exists c1 c2 : client,
    run default_config
        [Mount; SocketOpen 0; SocketMessage 0 (history [sample_event "A"]);
         SocketClose 0 false] start = Next c1 /\
    connected (hook c1) = false /\
    App.events (hook c1) [sample_event "mock"]
      = Items [sample_event "A"] /\
    App.events (hook c1) [sample_event "mock"]
      <> Items [sample_event "mock"] /\
    run default_config
        [Mount; SocketOpen 0] start = Next c2 /\
    connected (hook c2) = true /\
    App.events (hook c2) [sample_event "mock"]
      = Items [sample_event "mock"] /\
    App.events (hook c2) [sample_event "mock"] <> Hook.events (hook c2).
Proof.
  do 2 eexists.
  split; [reflexivity |]. split; [reflexivity |].
  split; [reflexivity |]. split; [discriminate |].
  split; [reflexivity |]. split; [reflexivity |].
  split; [reflexivity |]. discriminate.
Qed.

(** C9, amended.  The views are given the mock data when the stream's full
    window is empty and the stream's window when it holds an event, whether
    the hook is connected or not. *)
Theorem C9_source_is_window_unless_empty
    (window recent mock : list jsval) (conn : bool) (latest : jsval) :
  App.events {| events := Items window; feed := Items recent;
                connected := conn; latestEvent := latest |} mock
  = match window with
    | [] => Items mock
    | _ :: _ => Items window
    end.
Proof.
  unfold App.events. cbn [Hook.events length_positive].
  destruct window; reflexivity.
Qed.

End AppProps.

(** ** The order of binary64 numbers *)

Module FloatOrder.

Import Floats.
Local Open Scope float_scope.

(** [<] on the specification of binary64 is transitive: NaN is below and
    above nothing, and the other values are ordered by sign, exponent and
    mantissa. *)
Lemma SFltb_trans (a b c : spec_float) :
  SFltb a b = true -> SFltb b c = true -> SFltb a c = true.
Proof.
  unfold SFltb.
  destruct a as [sa | sa | | sa ma ea], b as [sb | sb | | sb mb eb],
           c as [sc | sc | | sc mc ec];
    cbn; try discriminate; try reflexivity;
    try (destruct sa; try discriminate; try reflexivity);
    try (destruct sb; try discriminate; try reflexivity);
    try (destruct sc; try discriminate; try reflexivity).
  all: destruct (Z.compare_spec ea eb), (Z.compare_spec eb ec),
         (Z.compare_spec ea ec); try discriminate; try reflexivity; try lia;
       subst; rewrite ?Pos.compare_cont_spec; cbn;
       destruct (Pos.compare_spec ma mb), (Pos.compare_spec mb mc),
                (Pos.compare_spec ma mc); cbn;
       try discriminate; try reflexivity; try lia.
Qed.

Lemma ltb_trans (x y z : float) :
  (x <? y) = true -> (y <? z) = true -> (x <? z) = true.
Proof. rewrite !ltb_spec. apply SFltb_trans. Qed.

Lemma ltb_irrefl (x : float) : (x <? x) = false.
Proof.
  rewrite ltb_spec. unfold SFltb.
  destruct (Prim2SF x) as [s | s | | s m e]; cbn; try reflexivity;
    destruct s; try reflexivity;
    rewrite Z.compare_refl, Pos.compare_cont_refl; reflexivity.
Qed.


(** What is below something is a number. *)
Lemma ltb_not_nan (x y : float) : (x <? y) = true -> is_nan x = false.
Proof.
  unfold is_nan. rewrite ltb_spec, eqb_spec. unfold SFltb, SFeqb.
  destruct (Prim2SF x) as [s | s | | s m e]; cbn; try discriminate;
    intros _; try reflexivity; destruct s; try reflexivity;
    rewrite Z.compare_refl, Pos.compare_cont_refl; reflexivity.
Qed.

(** Two numbers are comparable: when [x] is not below [y], [y <= x]. *)
Lemma not_ltb_leb (x y : float) :
  is_nan x = false -> is_nan y = false ->
  (x <? y) = false -> (y <=? x) = true.
Proof.
  unfold is_nan. rewrite ltb_spec, leb_spec, !eqb_spec.
  unfold SFltb, SFleb, SFeqb.
  destruct (Prim2SF x) as [sx | sx | | sx mx ex],
           (Prim2SF y) as [sy | sy | | sy my ey];
    cbn; try discriminate; try reflexivity;
    try (destruct sx; try discriminate; try reflexivity);
    try (destruct sy; try discriminate; try reflexivity).
  all: intros _ _; destruct (Z.compare_spec ex ey), (Z.compare_spec ey ex);
       try discriminate; try reflexivity; try lia;
       subst; rewrite ?Pos.compare_cont_spec; cbn;
       destruct (Pos.compare_spec mx my), (Pos.compare_spec my mx); cbn;
       try discriminate; try reflexivity; try lia.
Qed.

Lemma SFleb_ltb_trans (a b c : spec_float) :
  SFleb a b = true -> SFltb b c = true -> SFltb a c = true.
Proof.
  unfold SFleb, SFltb.
  destruct a as [sa | sa | | sa ma ea], b as [sb | sb | | sb mb eb],
           c as [sc | sc | | sc mc ec];
    cbn; try discriminate; try reflexivity;
    try (destruct sa; try discriminate; try reflexivity);
    try (destruct sb; try discriminate; try reflexivity);
    try (destruct sc; try discriminate; try reflexivity).
  all: destruct (Z.compare_spec ea eb), (Z.compare_spec eb ec),
         (Z.compare_spec ea ec); try discriminate; try reflexivity; try lia;
       subst; rewrite ?Pos.compare_cont_spec; cbn;
       destruct (Pos.compare_spec ma mb), (Pos.compare_spec mb mc),
                (Pos.compare_spec ma mc); cbn;
       try discriminate; try reflexivity; try lia.
Qed.

Lemma SFltb_leb_trans (a b c : spec_float) :
  SFltb a b = true -> SFleb b c = true -> SFltb a c = true.
Proof.
  unfold SFleb, SFltb.
  destruct a as [sa | sa | | sa ma ea], b as [sb | sb | | sb mb eb],
           c as [sc | sc | | sc mc ec];
    cbn; try discriminate; try reflexivity;
    try (destruct sa; try discriminate; try reflexivity);
    try (destruct sb; try discriminate; try reflexivity);
    try (destruct sc; try discriminate; try reflexivity).
  all: destruct (Z.compare_spec ea eb), (Z.compare_spec eb ec),
         (Z.compare_spec ea ec); try discriminate; try reflexivity; try lia;
       subst; rewrite ?Pos.compare_cont_spec; cbn;
       destruct (Pos.compare_spec ma mb), (Pos.compare_spec mb mc),
                (Pos.compare_spec ma mc); cbn;
       try discriminate; try reflexivity; try lia.
Qed.

Lemma leb_ltb_trans (x y z : float) :
  (x <=? y) = true -> (y <? z) = true -> (x <? z) = true.
Proof. rewrite leb_spec, !ltb_spec. apply SFleb_ltb_trans. Qed.

Lemma ltb_leb_trans (x y z : float) :
  (x <? y) = true -> (y <=? z) = true -> (x <? z) = true.
Proof. rewrite leb_spec, !ltb_spec. apply SFltb_leb_trans. Qed.

Lemma ltb_not_leb (x y : float) : (x <? y) = true -> (y <=? x) = false.
Proof.
  intros Hxy. destruct (y <=? x) eqn:Hyx; [| reflexivity].
  pose proof (leb_ltb_trans _ _ _ Hyx Hxy) as H.
  rewrite ltb_irrefl in H. discriminate.
Qed.

(** What something is below is a number. *)
Lemma ltb_not_nan_r (x y : float) : (x <? y) = true -> is_nan y = false.
Proof.
  unfold is_nan. rewrite ltb_spec, eqb_spec. unfold SFltb, SFeqb.
  destruct (Prim2SF x) as [sx | sx | | sx mx ex],
           (Prim2SF y) as [s | s | | s m e]; cbn; try discriminate;
    intros _; try reflexivity; destruct s; try reflexivity;
    rewrite Z.compare_refl, Pos.compare_cont_refl; reflexivity.
Qed.

End FloatOrder.

(** ** Projection and hit test *)

Module GeoProps.

Import Floats.
Import Geo FloatOrder.
Local Open Scope float_scope.




Lemma visit_takes (mx my w h : float) (acc : search) (e : event) :
  (pixel_distance mx my w h e <? minDist acc) = true ->
  visit mx my w h acc e
  = {| closest := Some e; minDist := pixel_distance mx my w h e |}.
Proof. intros H. unfold visit. now rewrite H. Qed.

Lemma visit_skips (mx my w h : float) (acc : search) (e : event) :
  (pixel_distance mx my w h e <? minDist acc) = false ->
  visit mx my w h acc e = acc.
Proof. intros H. unfold visit. now rewrite H. Qed.






End GeoProps.

(** ** The per-type configuration *)

Module RenderProps.

Import Render.
Local Open Scope string_scope.

(** An event type that names neither an entry of [EVENT_CONFIG] nor a member
    of [Object.prototype] gets the entry of [deforestation]. *)
Lemma cfg_of_unknown (t : string) :
  assoc t EVENT_CONFIG = None ->
  existsb (String.eqb t) Object_prototype = false ->
  cfg_of t = Entry deforestation.
Proof.
  intros Hown Hproto. unfold cfg_of, lookup. now rewrite Hown, Hproto.
Qed.

(** The example of the specification: [unknown_x] is drawn as
    [deforestation], in the feed and in the grid. *)
Lemma unknown_x_rendered_with_default :
  feed_row_of {| event_id := "e1"; event_type := "unknown_x" |}
  = {| row_key := "e1"; row_icon := Some (icon deforestation);
       row_label := Some "Deforestation"; row_color := Some "#22c55e" |} /\
  grid_card_of None {| event_id := "e1"; event_type := "unknown_x" |}
  = {| card_key := "e1"; card_icon := Some (icon deforestation);
       card_label := Some "Deforestation"; card_color := Some "#22c55e";
       card_background := Some "rgba(5,14,30,0.6)" |}.
Proof. split; reflexivity. Qed.

(** C8 fails on the code.  [constructor] is not one of the six event types,
    yet [EVENT_CONFIG["constructor"]] is the function inherited from
    [Object.prototype], which is truthy: the fallback after [||] is not
    taken, and the row and the card are drawn with an undefined icon, label
    and color instead of the default entry's. *)
Theorem C8_inherited_name_skips_default :
  assoc "constructor" EVENT_CONFIG = None /\
  cfg_of "constructor" = Inherited "constructor" /\
  EventFeed [ {| event_id := "e1"; event_type := "constructor" |} ]
  = Rows [ {| row_key := "e1"; row_icon := None; row_label := None;
              row_color := None |} ] /\
  EventGrid [ {| event_id := "e1"; event_type := "constructor" |} ] None
  = [ {| card_key := "e1"; card_icon := None; card_label := None;
         card_color := None;
         card_background := Some "rgba(5,14,30,0.6)" |} ] /\
  field label (cfg_of "constructor") <> Some (label deforestation).
Proof.
  repeat split; discriminate.
Qed.

End RenderProps.

(** ** The connection, for every run of the client *)

Module ClientMoreProps.

Import JS Hook Protocol Client Observe.
Import StreamProps ClientProps.
Local Open Scope string_scope.
Local Open Scope list_scope.
Local Open Scope nat_scope.

Lemma nth_error_set_nth {A} (l : list A) (i j : nat) (a : A) :
  nth_error (set_nth i a l) j =
  if Nat.eqb j i then match nth_error l j with Some _ => Some a | None => None end
  else nth_error l j.
Proof.
  revert i j. induction l as [| x l IH]; intros i j.
  - destruct i, j; cbn; try reflexivity. now destruct (Nat.eqb j i).
  - destruct i, j; cbn; try reflexivity. apply IH.
Qed.

Lemma live_set_nth (l : list readyState) (i : nat) (old new : readyState) :
  nth_error l i = Some old ->
  List.length (filter live (set_nth i new l)) + (if live old then 1 else 0)
  = List.length (filter live l) + (if live new then 1 else 0).
Proof.
  revert i. induction l as [| x l IH]; intros i H.
  - destruct i; discriminate.
  - destruct i; cbn in H |- *.
    + injection H as ->. destruct (live old), (live new); cbn; lia.
    + specialize (IH i H). destruct (live x); cbn; lia.
Qed.

Lemma receive_keeps_connected (m : Z) (e : MessageEvent) (h h' : hook_state) :
  receive m e h = Ok h' -> connected h' = connected h.
Proof.
  destruct e as [[msg |]]; [| intros [= <-]; reflexivity].
  unfold receive, onmessage, try_catch, onmessage_try, bind, lift, JSON_parse.
  cbn [data].
  destruct msg as [| | b | q | s | items | props];
    try (intros [= <-]; reflexivity).
  cbn [get_field].
  destruct (strict_eq_str (own_prop "type" props) "history").
  - destruct (own_prop "events" props); cbn; intros [= <-]; reflexivity.
  - destruct (strict_eq_str (own_prop "type" props) "new_events").
    + destruct (own_prop "events" props); cbn; try (intros [= <-]; reflexivity);
        try discriminate.
    + intros [= <-]; reflexivity.
Qed.

Lemma filter_length_le {A} (f : A -> bool) (l : list A) :
  List.length (filter f l) <= List.length l.
Proof. induction l as [| x l IH]; cbn; [lia |]. destruct (f x); cbn; lia. Qed.

Lemma filter_remove_member (id : nat) (l : list nat) :
  existsb (Nat.eqb id) l = true ->
  List.length (filter (fun t => negb (Nat.eqb t id)) l) < List.length l.
Proof.
  induction l as [| x l IH]; cbn; [discriminate |].
  rewrite (Nat.eqb_sym id x).
  destruct (Nat.eqb x id); cbn.
  - intros _. pose proof (filter_length_le (fun t => negb (Nat.eqb t id)) l). lia.
  - intros H. specialize (IH H). lia.
Qed.

Lemma live_app (l : list readyState) (s : readyState) :
  List.length (filter live (l ++ [s]))
  = List.length (filter live l) + (if live s then 1 else 0).
Proof.
  rewrite filter_app, length_app. cbn. destruct (live s); reflexivity.
Qed.

Lemma no_live_all_closed (l : list readyState) :
  List.length (filter live l) = 0 ->
  forall i s, nth_error l i = Some s -> live s = false.
Proof.
  induction l as [| x l IH]; intros H i s Hn.
  - destruct i; discriminate.
  - cbn in H. destruct (live x) eqn:Hx; [discriminate |].
    destruct i; cbn in Hn.
    + now injection Hn as <-.
    + eapply IH; eauto.
Qed.

Lemma live_positive (l : list readyState) (i : nat) (s : readyState) :
  nth_error l i = Some s -> live s = true ->
  1 <= List.length (filter live l).
Proof.
  intros Hn Hs.
  destruct (List.length (filter live l)) eqn:H; [| lia].
  rewrite (no_live_all_closed l H i s Hn) in Hs. discriminate.
Qed.

(** [connect], called when nothing is in flight, starts exactly one thing. *)
Lemma wired_connect (cfg : config) (c : client) :
  life c <> Idle ->
  live_sockets c = 0 -> timers c = [] ->
  (life c = Mounted -> connected (hook c) = false) ->
  wired (connect cfg c).
Proof.
  intros Hlife Hlive Ht Hconn.
  assert (Hopen : current_is_open c = false).
  { unfold current_is_open. destruct (wsRef c) as [i |]; [| reflexivity].
    destruct (nth_error (sockets c) i) as [s |] eqn:Hn; [| reflexivity].
    pose proof (no_live_all_closed _ Hlive i s Hn) as Hs.
    destruct s; try discriminate; reflexivity. }
  unfold connect. rewrite Hopen.
  destruct (url_ok cfg); unfold wired, in_flight, live_sockets, current_is_open;
    cbn [sockets timers life hook wsRef schedule_reconnect console_log].
  - rewrite live_app. unfold live_sockets in Hlive. rewrite Hlive, Ht. cbn.
    split; [lia |]. split; [intros H; contradiction |]. split.
    + intros Hm. split; [reflexivity |].
      rewrite nth_error_app2, Nat.sub_diag by lia. cbn. auto.
    + intros i s Hn Hs.
      destruct (Nat.lt_ge_cases i (List.length (sockets c))) as [Hlt | Hge].
      * rewrite nth_error_app1 in Hn by assumption.
        rewrite (no_live_all_closed _ Hlive i s Hn) in Hs. discriminate.
      * destruct (Nat.eq_dec i (List.length (sockets c))) as [-> | Hne];
          [reflexivity |].
        rewrite nth_error_app2 in Hn by assumption.
        destruct (i - List.length (sockets c)) as [| k] eqn:Hk; [lia |].
        cbn in Hn. destruct k; discriminate.
  - unfold live_sockets in Hlive. rewrite Hlive, Ht. cbn.
    split; [lia |]. split; [intros H; contradiction |]. split.
    + intros Hm. split; [reflexivity |].
      rewrite (Hconn Hm). symmetry. exact Hopen.
    + intros i s Hn Hs.
      rewrite (no_live_all_closed _ Hlive i s Hn) in Hs. discriminate.
Qed.

Lemma not_open_when_nothing_live (c : client) :
  live_sockets c = 0 -> current_is_open c = false.
Proof.
  intros Hlive. unfold current_is_open.
  destruct (wsRef c) as [i |]; [| reflexivity].
  destruct (nth_error (sockets c) i) as [s |] eqn:Hn; [| reflexivity].
  pose proof (no_live_all_closed _ Hlive i s Hn) as Hs.
  destruct s; try discriminate; reflexivity.
Qed.

Lemma length_zero_nil {A} (l : list A) : List.length l = 0 -> l = [].
Proof. destruct l; [reflexivity | discriminate]. Qed.

Lemma wired_start : wired start.
Proof.
  unfold wired, in_flight, live_sockets; cbn.
  split; [lia |]. split; [auto |]. split; [discriminate |].
  intros [| i] s; discriminate.
Qed.

Lemma wiring_clear_reconnect c :
  same_wiring c (clear_reconnect c) /\
  List.length (timers (clear_reconnect c)) <= List.length (timers c) /\
  hook (clear_reconnect c) = hook c.
Proof.
  unfold clear_reconnect, same_wiring.
  destruct (reconnectTimer c); cbn; repeat split; auto.
  apply filter_length_le.
Qed.

Lemma wired_refs_set_nth (c : client) (i : nat) (new : readyState) :
  (forall j s, nth_error (sockets c) j = Some s -> live s = true ->
               wsRef c = Some j) ->
  (live new = true -> wsRef c = Some i) ->
  forall j s, nth_error (set_nth i new (sockets c)) j = Some s ->
              live s = true -> wsRef c = Some j.
Proof.
  intros Href Hnew j s Hj Hs. rewrite nth_error_set_nth in Hj.
  destruct (Nat.eqb_spec j i) as [-> | Hne].
  - destruct (nth_error (sockets c) i); [| discriminate].
    injection Hj as <-. now apply Hnew.
  - now apply (Href j s).
Qed.

Lemma wired_unmount cfg c c' : wired c -> step cfg Unmount c = Next c' -> wired c'.
Proof.
  intros (Hle & Hidle & Hmounted & Href) Hstep. cbn [step] in Hstep.
  destruct (life c) eqn:Hlife; try discriminate.
  injection Hstep as <-.
  destruct (wiring_clear_reconnect c) as ((Hcs & Hcw & Hcl) & Hct & _).
  assert (Hgoal : forall d,
             sockets d = sockets (clear_reconnect c) \/
             (exists j s, wsRef c = Some j /\ nth_error (sockets c) j = Some s /\
                          live s = true /\
                          sockets d = set_nth j CLOSING (sockets c)) ->
             wsRef d = wsRef c -> timers d = timers (clear_reconnect c) ->
             wired (with_life TornDown d)).
  { intros d Hs Hw Ht. unfold wired, in_flight, live_sockets in *.
    cbn [with_life life sockets timers wsRef hook].
    rewrite Ht, Hw.
    split; [| split; [discriminate | split; [discriminate |]]].
    - destruct Hs as [-> | (j & s & _ & Hn & Hl & ->)].
      + rewrite Hcs. lia.
      + pose proof (live_set_nth _ j s CLOSING Hn) as H.
        rewrite Hl in H. cbn in H. lia.
    - destruct Hs as [-> | (j & s & Hj & Hn & Hl & ->)].
      + rewrite Hcs. exact Href.
      + apply wired_refs_set_nth; auto. }
  unfold cleanup. rewrite Hcw.
  destruct (wsRef c) as [j |] eqn:Hw; [| apply Hgoal; auto].
  unfold close. rewrite Hcs.
  destruct (nth_error (sockets c) j) as [[ | | | ] |] eqn:Hn;
    apply Hgoal; cbn [with_sockets sockets wsRef timers]; auto;
    right; exists j; eexists; rewrite ?Hcs; repeat split; eauto.
Qed.

Lemma idle_has_no_socket c i s :
  wired c -> nth_error (sockets c) i = Some s -> life c <> Idle.
Proof.
  intros (_ & Hidle & _) Hn Hl. destruct (Hidle Hl) as (Hs & _).
  rewrite Hs in Hn. destruct i; discriminate.
Qed.

Lemma wiring_setConnected b c :
  same_wiring c (setConnected b c) /\
  timers (setConnected b c) = timers c /\
  (life c = Mounted -> connected (hook (setConnected b c)) = b) /\
  (life c <> Mounted -> hook (setConnected b c) = hook c).
Proof.
  unfold setConnected, same_wiring.
  destruct (life c) eqn:E; cbn; repeat split; auto; intros;
    try discriminate; try contradiction; auto.
Qed.

Lemma wired_open cfg i c c' :
  wired c -> step cfg (SocketOpen i) c = Next c' -> wired c'.
Proof.
  intros Hwired Hstep. cbn [step] in Hstep.
  destruct (nth_error (sockets c) i) as [[ | | | ] |] eqn:Hn; try discriminate.
  injection Hstep as <-.
  pose proof (idle_has_no_socket c i _ Hwired Hn) as Hnot_idle.
  destruct Hwired as (Hle & Hidle & Hmounted & Href).
  pose proof (live_set_nth _ i CONNECTING OPEN Hn) as Hcount. cbn in Hcount.
  pose proof (live_positive _ i CONNECTING Hn eq_refl) as Hpos.
  assert (Hw : wsRef c = Some i) by (now apply (Href i CONNECTING)).
  unfold onopen.
  set (c1 := console_log _ _).
  destruct (wiring_clear_reconnect c1) as ((Hcs & Hcw & Hcl) & Hct & Hch).
  assert (H1 : sockets c1 = set_nth i OPEN (sockets c) /\ wsRef c1 = wsRef c /\
               life c1 = life c /\ timers c1 = timers c /\
               (life c = Mounted -> connected (hook c1) = true)).
  { subst c1. cbn [console_log sockets wsRef life timers hook].
    destruct (wiring_setConnected true
                (with_sockets (set_nth i OPEN (sockets c)) c))
      as ((-> & -> & ->) & -> & Hc & _).
    cbn [with_sockets sockets wsRef life timers]. auto. }
  destruct H1 as (Hs1 & Hw1 & Hl1 & Ht1 & Hc1).
  unfold wired, in_flight, live_sockets, current_is_open in *.
  rewrite Hcs, Hcw, Hcl, Hch, Hs1, Hw1, Hl1.
  rewrite Ht1 in Hct.
  split; [lia |]. split; [intros H; contradiction |]. split.
  - intros Hm. split; [destruct (Hmounted Hm); lia |].
    rewrite (Hc1 Hm), Hw, nth_error_set_nth, Nat.eqb_refl, Hn. reflexivity.
  - apply wired_refs_set_nth; auto.
Qed.

Lemma wired_message cfg i e c c' :
  wired c -> step cfg (SocketMessage i e) c = Next c' -> wired c'.
Proof.
  intros (Hle & Hidle & Hmounted & Href) Hstep. cbn [step] in Hstep.
  assert (Hsame : forall d, commit (queue (snd (onmessage (maxEvents cfg) e no_effects)))
                     (console_log (console (snd (onmessage (maxEvents cfg) e no_effects))) c)
                   = Ok d ->
                   sockets d = sockets c /\ wsRef d = wsRef c /\
                   life d = life c /\ timers d = timers c /\
                   connected (hook d) = connected (hook c)).
  { intros d. unfold commit. cbn [console_log life hook].
    destruct (life c) eqn:Hlife.
    - intros [= <-]. cbn. auto.
    - fold (receive (maxEvents cfg) e (hook c)).
      destruct (receive (maxEvents cfg) e (hook c)) as [h' |] eqn:Hr;
        cbn [rbind]; [| discriminate].
      intros [= <-]. cbn. repeat split; auto.
      eapply receive_keeps_connected; eauto.
    - intros [= <-]. cbn. auto. }
  assert (Hd : exists d, commit (queue (snd (onmessage (maxEvents cfg) e no_effects)))
                     (console_log (console (snd (onmessage (maxEvents cfg) e no_effects))) c)
                   = Ok d /\ c' = d).
  { destruct (nth_error (sockets c) i) as [[ | | | ] |]; try discriminate;
      destruct (commit _ _) as [d |]; try discriminate;
      injection Hstep as <-; eauto. }
  destruct Hd as (d & Hd & ->).
  destruct (Hsame d Hd) as (Hs & Hw & Hl & Ht & Hc).
  unfold wired, in_flight, live_sockets, current_is_open in *.
  rewrite Hs, Hw, Hl, Ht, Hc. auto.
Qed.

Lemma wired_close cfg i failed c c' :
  wired c -> step cfg (SocketClose i failed) c = Next c' -> wired c'.
Proof.
  intros Hwired Hstep. cbn [step] in Hstep.
  assert (Hlive : exists s, nth_error (sockets c) i = Some s /\ live s = true /\
            c' = onclose
                   (if failed
                    then onerror i (with_sockets (set_nth i CLOSED (sockets c)) c)
                    else with_sockets (set_nth i CLOSED (sockets c)) c)).
  { destruct (nth_error (sockets c) i) as [[ | | | ] |]; try discriminate;
      injection Hstep as <-; eexists; repeat split. }
  destruct Hlive as (s & Hn & Hs & ->). clear Hstep.
  pose proof (idle_has_no_socket c i _ Hwired Hn) as Hnot_idle.
  destruct Hwired as (Hle & Hidle & Hmounted & Href).
  pose proof (live_set_nth _ i s CLOSED Hn) as Hcount.
  rewrite Hs in Hcount. cbn in Hcount.
  pose proof (live_positive _ i s Hn Hs) as Hpos.
  assert (Hw : wsRef c = Some i) by (now apply (Href i s)).
  set (c1 := with_sockets (set_nth i CLOSED (sockets c)) c).
  assert (Hc2 : forall c2, c2 = (if failed then onerror i c1 else c1) ->
                  sockets c2 = set_nth i CLOSED (sockets c) /\
                  wsRef c2 = wsRef c /\ life c2 = life c /\
                  timers c2 = timers c).
  { intros c2 ->. destruct failed; [| subst c1; cbn; auto].
    unfold onerror, close. subst c1.
    cbn [console_log with_sockets sockets].
    rewrite nth_error_set_nth, Nat.eqb_refl, Hn. cbn. auto. }
  destruct (Hc2 _ eq_refl) as (Hs2 & Hw2 & Hl2 & Ht2).
  set (c2 := if failed then onerror i c1 else c1) in *.
  unfold onclose.
  destruct (wiring_setConnected false c2) as ((Hs3 & Hw3 & Hl3) & Ht3 & Hc3 & _).
  unfold wired, in_flight, live_sockets, current_is_open in *.
  cbn [schedule_reconnect console_log sockets timers wsRef life hook].
  rewrite Hs3, Hw3, Hl3, Ht3, Hs2, Hw2, Hl2, Ht2, length_app.
  assert (Ht : timers c = []) by (apply length_zero_nil; lia).
  rewrite Ht. cbn [List.length].
  split; [lia |]. split; [intros H; contradiction |]. split.
  - intros Hm. split; [lia |].
    rewrite Hc3 by (now rewrite Hl2).
    rewrite Hw, nth_error_set_nth, Nat.eqb_refl, Hn. reflexivity.
  - intros j s' Hj Hs'.
    assert (H0 : List.length (filter live (set_nth i CLOSED (sockets c))) = 0)
      by lia.
    rewrite (no_live_all_closed _ H0 j s' Hj) in Hs'. discriminate.
Qed.

Lemma wired_timeout cfg id c c' :
  wired c -> step cfg (Timeout id) c = Next c' -> wired c'.
Proof.
  intros (Hle & Hidle & Hmounted & Href) Hstep. cbn [step] in Hstep.
  destruct (existsb (Nat.eqb id) (timers c)) eqn:Hin; [| discriminate].
  injection Hstep as <-.
  pose proof (filter_remove_member id (timers c) Hin) as Hless.
  unfold in_flight in Hle.
  assert (Hlive : live_sockets c = 0) by lia.
  apply wired_connect; cbn [with_timers life timers hook].
  - intros Hl. destruct (Hidle Hl) as (_ & Ht & _). rewrite Ht in Hin.
    discriminate.
  - exact Hlive.
  - apply length_zero_nil. lia.
  - intros Hm. destruct (Hmounted Hm) as (_ & ->).
    now apply not_open_when_nothing_live.
Qed.

Lemma wired_step (cfg : config) (ev : event) (c c' : client) :
  wired c -> step cfg ev c = Next c' -> wired c'.
Proof.
  intros Hwired Hstep. destruct ev as [| | i | i e | i failed | id].
  - cbn [step] in Hstep. destruct Hwired as (Hle & Hidle & Hmounted & Href).
    destruct (life c) eqn:Hlife; try discriminate.
    injection Hstep as <-.
    destruct (Hidle eq_refl) as (Hs & Ht & Hc).
    apply wired_connect; cbn [with_life life timers hook]; auto;
      try discriminate.
    unfold live_sockets. cbn [with_life sockets]. now rewrite Hs.
  - eapply wired_unmount; eauto.
  - eapply wired_open; eauto.
  - eapply wired_message; eauto.
  - eapply wired_close; eauto.
  - eapply wired_timeout; eauto.
Qed.

Lemma wired_run (cfg : config) (evs : list event) :
  forall c c', wired c -> run cfg evs c = Next c' -> wired c'.
Proof.
  induction evs as [| ev rest IH]; intros c c' Hwired Hrun; cbn [run] in Hrun.
  - now injection Hrun as <-.
  - destruct (step cfg ev c) as [c1 | |] eqn:Hstep; try discriminate.
    eapply IH; [| exact Hrun]. eapply wired_step; eauto.
Qed.

Lemma run_app cfg evs1 evs2 c :
  run cfg (evs1 ++ evs2) c =
  match run cfg evs1 c with
  | Next c1 => run cfg evs2 c1
  | Disabled => Disabled
  | RenderError => RenderError
  end.
Proof.
  revert c. induction evs1 as [| ev rest IH]; intros c; cbn [app run].
  - reflexivity.
  - destruct (step cfg ev c); auto.
Qed.

Lemma nth_error_repeat_last (n : nat) :
  nth_error (repeat CLOSED n ++ [CONNECTING]) n = Some CONNECTING.
Proof.
  rewrite nth_error_app2 by (rewrite repeat_length; lia).
  now rewrite repeat_length, Nat.sub_diag.
Qed.

Lemma set_nth_repeat_last (n : nat) :
  set_nth n CLOSED (repeat CLOSED n ++ [CONNECTING]) = repeat CLOSED (S n).
Proof. induction n as [| n IH]; cbn; [reflexivity |]. now f_equal. Qed.

Lemma nth_error_repeat_closed (n i : nat) :
  i < n -> nth_error (repeat CLOSED n) i = Some CLOSED.
Proof.
  intros H. rewrite (nth_error_nth' _ CLOSED) by (now rewrite repeat_length).
  now rewrite nth_repeat.
Qed.

(** X4.  Retries have no limit: after any number [n] of connection attempts
    that failed in a row the hook is still mounted, holds no timer, and its
    attempt number [n + 1] is under way on a fresh socket. *)
Theorem X4_retries_never_stop (maxEvents : Z) (n : nat) :
  exists c : client,
    run {| maxEvents := maxEvents; url_ok := true |}
        (Mount :: failed_attempts n) start = Next c /\
    life c = Mounted /\
    attempts c = S n /\
    sockets c = repeat CLOSED n ++ [CONNECTING] /\
    wsRef c = Some n /\
    timers c = [] /\
    next_timer c = n /\
    connected (hook c) = false.
Proof.
  induction n as [| n IH].
  - eexists. cbn. repeat split.
  - destruct IH as (c & Hrun & Hlife & Hatt & Hs & Hw & Ht & Hnt & Hc).
    unfold failed_attempts in *.
    rewrite seq_S, flat_map_app, app_comm_cons, run_app, Hrun. cbn [flat_map app Nat.add run].
    destruct c as [h ss w ts nt rt lf at_ lg]. cbn in Hlife, Hatt, Hs, Hw, Ht, Hnt, Hc.
    subst. cbn [step sockets].
    rewrite nth_error_repeat_last. cbn [with_sockets].
    rewrite set_nth_repeat_last.
    unfold onerror, close. cbn [console_log with_sockets sockets].
    rewrite nth_error_repeat_closed by lia.
    cbv [onclose setConnected console_log with_sockets with_hook
         schedule_reconnect life timers next_timer hook sockets wsRef
         reconnectTimer attempts log with_timers].
    cbn [app existsb filter].
    rewrite Nat.eqb_refl. cbn [orb negb].
    unfold connect, current_is_open. cbn [wsRef sockets url_ok].
    rewrite nth_error_repeat_closed by lia.
    eexists. split; [reflexivity |].
    cbn [life attempts sockets wsRef timers next_timer hook connected].
    rewrite repeat_length. repeat split; auto.
Qed.







(** With a URL the constructor rejects, no step creates a socket or sets
    the flag. *)
Lemma bad_url_step (m : Z) (ev : event) (c c' : client) :
  sockets c = [] -> connected (hook c) = false ->
  step {| maxEvents := m; url_ok := false |} ev c = Next c' ->
  sockets c' = [] /\ connected (hook c') = false.
Proof.
  intros Hs Hc Hstep.
  assert (Hconnect : forall d, sockets d = [] -> connected (hook d) = false ->
            sockets (connect {| maxEvents := m; url_ok := false |} d) = [] /\
            connected (hook (connect {| maxEvents := m; url_ok := false |} d))
            = false).
  { intros d Hd Hcd. unfold connect, current_is_open. rewrite Hd.
    destruct (wsRef d) as [[| j] |]; cbn; auto. }
  destruct ev as [| | i | i e | i failed | id]; cbn [step] in Hstep.
  - destruct (life c); try discriminate. injection Hstep as <-.
    now apply Hconnect.
  - destruct (life c); try discriminate. injection Hstep as <-.
    cbn [with_life sockets hook]. rewrite hook_cleanup. split; [| exact Hc].
    unfold cleanup.
    destruct (wiring_clear_reconnect c) as ((Hcs & _ & _) & _).
    destruct (wsRef (clear_reconnect c)) as [j |]; [| congruence].
    unfold close. rewrite Hcs, Hs. destruct j; cbn; congruence.
  - rewrite Hs in Hstep. destruct i; discriminate.
  - rewrite Hs in Hstep. destruct i; discriminate.
  - rewrite Hs in Hstep. destruct i; discriminate.
  - destruct (existsb (Nat.eqb id) (timers c)); [| discriminate].
    injection Hstep as <-. now apply Hconnect.
Qed.

(** X5.  When [new WebSocket(WS_URL)] throws (a URL that is no WebSocket
    address), the hook never has a socket and never reports [connected], and
    while mounted it keeps exactly one retry pending. *)
Theorem X5_bad_url_never_connects
    (m : Z) (evs : list event) (c : client) :
  run {| maxEvents := m; url_ok := false |} evs start = Next c ->
  sockets c = [] /\
  connected (hook c) = false /\
  (life c = Mounted -> exists t, timers c = [t]).
Proof.
  assert (Hgen : forall c0, sockets c0 = [] -> connected (hook c0) = false ->
            run {| maxEvents := m; url_ok := false |} evs c0 = Next c ->
            sockets c = [] /\ connected (hook c) = false).
  { induction evs as [| ev rest IH]; intros c0 Hs Hc Hr; cbn [run] in Hr.
    - injection Hr as <-. auto.
    - destruct (step _ ev c0) as [c1 | |] eqn:Hstep; try discriminate.
      destruct (bad_url_step m ev c0 c1 Hs Hc Hstep) as [Hs1 Hc1].
      now apply (IH c1). }
  intros Hrun.
  destruct (Hgen start eq_refl eq_refl Hrun) as [Hs Hc].
  split; [exact Hs |]. split; [exact Hc |].
  intros Hm.
  destruct (wired_run _ evs start c wired_start Hrun) as (_ & _ & Hmounted & _).
  destruct (Hmounted Hm) as (Hone & _).
  unfold in_flight, live_sockets in Hone. rewrite Hs in Hone. cbn in Hone.
  destruct (timers c) as [| t [| t' rest]]; try discriminate.
  now exists t.
Qed.

Lemma X5_witness :
  exists c : client,
    run {| maxEvents := 200; url_ok := false |}
        [Mount; Timeout 0; Timeout 1] start = Next c /\
    sockets c = [] /\ attempts c = 3 /\ connected (hook c) = false.
Proof.
  assert (Hrun : exists c,
             run {| maxEvents := 200; url_ok := false |}
                 [Mount; Timeout 0; Timeout 1] start = Next c)
    by (eexists; vm_compute; reflexivity).
  destruct Hrun as [c Hrun]. exists c.
  destruct (X5_bad_url_never_connects 200 [Mount; Timeout 0; Timeout 1]
              c Hrun) as (Hs & Hc & _).
  split; [exact Hrun |]. split; [exact Hs |]. split; [| exact Hc].
  vm_compute in Hrun. injection Hrun as <-. reflexivity.
Defined.

Lemma X6_witness :
  exists c torn : client,
    run default_config [Mount; SocketClose 0 true] start = Next c /\
    step default_config Unmount c = Next torn /\
    step default_config (Timeout 0) torn = Disabled /\
    step default_config (SocketOpen 0) torn = Disabled.
Proof.
  assert (Hrun : exists c,
             run default_config [Mount; SocketClose 0 true] start = Next c /\
             Forall (eq CLOSED) (sockets c) /\
             (forall t, In t (timers c) -> reconnectTimer c = Some t) /\
             exists torn, step default_config Unmount c = Next torn).
  { eexists. split; [vm_compute; reflexivity |].
    split; [repeat constructor |].
    split; [intros t [<- | []]; reflexivity |].
    eexists. vm_compute. reflexivity. }
  destruct Hrun as (c & Hrun & Hclosed & Honly & torn & Hstep).
  exists c, torn. split; [exact Hrun |]. split; [exact Hstep |].
  split;
    apply (teardown_is_final_when_nothing_is_live default_config c torn
             Hstep Hclosed Honly).
Defined.

Lemma X7_witness :
  (0 <= maxEvents {| maxEvents := 3; url_ok := true |})%Z /\
  exists c : client,
    run {| maxEvents := 3; url_ok := true |}
        [Mount; SocketOpen 0;
         SocketMessage 0 (history [JStr "A"; JStr "B"; JStr "C"; JStr "D"]);
         SocketMessage 0 {| data := None |};
         SocketMessage 0 (new_events [JStr "E"]);
         SocketClose 0 false] start = Next c /\
    within_caps 3 (hook c).
Proof.
  split; [cbn; lia |].
  destruct (run_keeps_caps {| maxEvents := 3; url_ok := true |}
              [Mount; SocketOpen 0;
               SocketMessage 0
                 (history [JStr "A"; JStr "B"; JStr "C"; JStr "D"]);
               SocketMessage 0 {| data := None |};
               SocketMessage 0 (new_events [JStr "E"]);
               SocketClose 0 false]) with (c := start)
    as [Hdis | (c & Hrun & Hcaps)].
  - cbn; lia.
  - repeat (apply Forall_cons || apply Forall_nil);
      cbn [protocol_event]; try exact I.
    + left. now exists (Snapshot [JStr "A"; JStr "B"; JStr "C"; JStr "D"]).
    + now right.
    + left. now exists (Delta [JStr "E"]).
  - exists [], []. cbn. repeat split; lia.
  - discriminate Hdis.
  - exists c. split; [exact Hrun | exact Hcaps].
Defined.

(** X8.  The handler never throws, whatever the frame; but a [new_events]
    frame whose [events] is a boolean, a number or an object gets past its
    [try]/[catch] (reading index 0 of such a value is allowed) and the state
    updaters it queued throw when React renders; no other frame does.  On
    an open socket of a mounted component such a frame ends in a render
    error. *)
Theorem X8_frames_that_break_the_render
    (m : Z) (e : MessageEvent) (h : hook_state) :
  fst (onmessage m e no_effects) = Ok tt /\
  (if breaks_render e
   then receive m e h = Throw TypeError
   else exists h', receive m e h = Ok h') /\
  (forall (cfg : config) (i : nat) (c : client),
      breaks_render e = true ->
      nth_error (sockets c) i = Some OPEN ->
      life c = Mounted ->
      step cfg (SocketMessage i e) c = RenderError).
Proof.
  assert (Hhook : forall m' h0,
             if breaks_render e
             then receive m' e h0 = Throw TypeError
             else exists h', receive m' e h0 = Ok h').
  { intros m' h0.
    destruct e as [[msg |]]; [| cbn; eauto].
    unfold breaks_render, receive, onmessage, try_catch, onmessage_try, bind,
      lift, JSON_parse.
    cbn [data].
    destruct msg as [| | b | q | s | items | props]; try (cbn; eauto; fail).
    cbn [get_field].
    destruct (strict_eq_str (own_prop "type" props) "history") eqn:Hh.
    - assert (Hn : strict_eq_str (own_prop "type" props) "new_events" = false).
      { destruct (own_prop "type" props); try reflexivity.
        cbn in Hh |- *. apply String.eqb_eq in Hh. now subst. }
      rewrite Hn. cbn [andb].
      destruct (own_prop "events" props); cbn; eauto.
    - destruct (strict_eq_str (own_prop "type" props) "new_events").
      + cbn [andb]. destruct (own_prop "events" props); cbn; eauto.
      + cbn; eauto. }
  split; [apply onmessage_never_throws |]. split; [apply Hhook |].
  intros cfg i c Hb Hopen Hm. cbn [step]. rewrite Hopen.
  unfold commit. cbn [console_log life hook]. rewrite Hm.
  specialize (Hhook (maxEvents cfg) (hook c)). rewrite Hb in Hhook.
  unfold receive in Hhook. rewrite Hhook. reflexivity.
Qed.

Lemma X8_witness :
  breaks_render
    {| data := Some (JObj [("type", JStr "new_events");
                           ("events", JNum 5)]) |} = true /\
  step default_config
       (SocketMessage 0
          {| data := Some (JObj [("type", JStr "new_events");
                                 ("events", JNum 5)]) |})
       {| hook := initial; sockets := [OPEN]; wsRef := Some 0; timers := [];
          next_timer := 0; reconnectTimer := None; life := Mounted;
          attempts := 1; log := [] |}
  = RenderError.
Proof.
  split; [reflexivity |].
  apply (proj2 (proj2 (X8_frames_that_break_the_render 200
                         {| data := Some (JObj [("type", JStr "new_events");
                                                ("events", JNum 5)]) |}
                         initial))); reflexivity.
Defined.

End ClientMoreProps.

(** ** More of the hit test, and the pointer handlers *)

Module GeoMoreProps.

Import Floats.
Import Geo WorldMap FloatOrder GeoProps.
Local Open Scope float_scope.

(** Where the loop took its event from: either it took none (and no event
    visited is below the bound it started with), or the list splits at the
    event it holds, no event before it being as near and no event after it
    being nearer. *)
Lemma forEach_visit_first (mx my w h : float) (events : list event) :
  forall acc : search,
    let out := fold_left (visit mx my w h) events acc in
    (closest out = closest acc /\ minDist out = minDist acc /\
     (forall e, In e events ->
                (pixel_distance mx my w h e <? minDist acc) = false)) \/
    (exists pre evt post,
        events = pre ++ evt :: post /\
        closest out = Some evt /\
        minDist out = pixel_distance mx my w h evt /\
        (pixel_distance mx my w h evt <? minDist acc) = true /\
        (forall e, In e pre ->
           (pixel_distance mx my w h e <=? pixel_distance mx my w h evt)
           = false) /\
        (forall e, In e post ->
           (pixel_distance mx my w h e <? pixel_distance mx my w h evt)
           = false)).
Proof.
  induction events as [| x rest IH]; intros acc; cbn zeta.
  - left. cbn. repeat split; auto. intros e [].
  - cbn [fold_left]. specialize (IH (visit mx my w h acc x)). cbn zeta in IH.
    destruct (pixel_distance mx my w h x <? minDist acc) eqn:Hlt.
    + rewrite (visit_takes _ _ _ _ _ _ Hlt) in IH |- *.
      cbn [minDist closest] in IH. right.
      destruct IH as [(Hc & Hm & Hall)
                     | (pre & evt & post & -> & Hc & Hm & Hd & Hpre & Hpost)].
      * exists [], x, rest. cbn [app]. repeat split; auto. intros e [].
      * exists (x :: pre), evt, post. cbn [app].
        repeat split; auto; [exact (ltb_trans _ _ _ Hd Hlt) |].
        intros e [<- | Hin]; [now apply ltb_not_leb | now apply Hpre].
    + rewrite (visit_skips _ _ _ _ _ _ Hlt) in IH |- *.
      destruct IH as [(Hc & Hm & Hall)
                     | (pre & evt & post & -> & Hc & Hm & Hd & Hpre & Hpost)].
      * left. repeat split; auto.
        intros e [<- | Hin]; [exact Hlt | now apply Hall].
      * right. exists (x :: pre), evt, post. cbn [app].
        repeat split; auto.
        intros e [<- | Hin]; [| now apply Hpre].
        destruct (pixel_distance mx my w h x <=? pixel_distance mx my w h evt)
          eqn:Hle; [| reflexivity].
        rewrite (leb_ltb_trans _ _ _ Hle Hd) in Hlt. discriminate.
Qed.

(** X9.  Ties go to the event that comes first: the event
    [findNearestEvent] returns is the first of the list at the least
    distance.  No event before it in the list is as near to the pointer
    (at most as far), and no event after it is nearer. *)
Theorem X9_first_of_the_nearest_wins
    (mx my w h maxDist : float) (events : list event) (evt : event) :
  findNearestEvent mx my events w h maxDist = Some evt ->
  exists pre post,
    events = pre ++ evt :: post /\
    (pixel_distance mx my w h evt <? maxDist) = true /\
    (forall e, In e pre ->
       (pixel_distance mx my w h e <=? pixel_distance mx my w h evt)
       = false) /\
    (forall e, In e post ->
       (pixel_distance mx my w h e <? pixel_distance mx my w h evt)
       = false).
Proof.
  unfold findNearestEvent. intros Hres.
  destruct (forEach_visit_first mx my w h events
              {| closest := None; minDist := maxDist |})
    as [(Hc & _) | (pre & e0 & post & Hev & Hc & _ & Hd & Hpre & Hpost)];
    cbn [closest minDist] in *.
  - rewrite Hc in Hres. discriminate.
  - rewrite Hc in Hres. injection Hres as <-.
    exists pre, post. auto.
Qed.

Lemma X9_witness :
  findNearestEvent 103 104
    [ {| event_id := "first"; evt_lat := -10; evt_lon := -80 |};
      {| event_id := "second"; evt_lat := -10; evt_lon := -80 |} ] 360 180 18
  = Some {| event_id := "first"; evt_lat := -10; evt_lon := -80 |} /\
  exists pre post,
    [ {| event_id := "first"; evt_lat := -10; evt_lon := -80 |};
      {| event_id := "second"; evt_lat := -10; evt_lon := -80 |} ]
    = pre ++ {| event_id := "first"; evt_lat := -10; evt_lon := -80 |} :: post.
Proof.
  assert (Hres : findNearestEvent 103 104
    [ {| event_id := "first"; evt_lat := -10; evt_lon := -80 |};
      {| event_id := "second"; evt_lat := -10; evt_lon := -80 |} ] 360 180 18
    = Some {| event_id := "first"; evt_lat := -10; evt_lon := -80 |})
    by (vm_compute; reflexivity).
  split; [exact Hres |].
  destruct (X9_first_of_the_nearest_wins _ _ _ _ _ _ _ Hres)
    as (pre & post & Hsplit & _).
  now exists pre, post.
Defined.

(** A wider tolerance finds the same event: once the loop has taken an
    event, a run that started from a greater bound ends in the same state. *)
Lemma forEach_visit_wider (mx my w h : float) (events : list event) :
  forall acc acc' : search,
    (minDist acc <=? minDist acc') = true ->
    (minDist (fold_left (visit mx my w h) events acc) <? minDist acc) = true ->
    fold_left (visit mx my w h) events acc'
    = fold_left (visit mx my w h) events acc.
Proof.
  induction events as [| x rest IH]; intros acc acc' Hle Htaken.
  - cbn in Htaken. rewrite ltb_irrefl in Htaken. discriminate.
  - cbn [fold_left] in *.
    destruct (pixel_distance mx my w h x <? minDist acc) eqn:Hlt.
    + rewrite (visit_takes _ _ _ _ _ _ Hlt).
      rewrite (visit_takes _ _ _ _ _ _ (ltb_leb_trans _ _ _ Hlt Hle)).
      reflexivity.
    + rewrite (visit_skips _ _ _ _ _ _ Hlt) in Htaken |- *.
      destruct (pixel_distance mx my w h x <? minDist acc') eqn:Hlt'.
      * rewrite (visit_takes _ _ _ _ _ _ Hlt').
        apply IH; cbn [minDist]; [| exact Htaken].
        apply not_ltb_leb; auto.
        -- exact (ltb_not_nan _ _ Hlt').
        -- exact (ltb_not_nan_r _ _ Htaken).
      * rewrite (visit_skips _ _ _ _ _ _ Hlt'). apply IH; assumption.
Qed.

Lemma findNearestEvent_wider_tolerance
    (mx my w h tol tol' : float) (events : list event) (evt : event) :
  (tol <=? tol') = true ->
  findNearestEvent mx my events w h tol = Some evt ->
  findNearestEvent mx my events w h tol' = Some evt.
Proof.
  unfold findNearestEvent. intros Hle Hres.
  rewrite (forEach_visit_wider mx my w h events
             {| closest := None; minDist := tol |}
             {| closest := None; minDist := tol' |}); [exact Hres | exact Hle |].
  destruct (forEach_visit_first mx my w h events
              {| closest := None; minDist := tol |})
    as [(Hc & _) | (pre & e0 & post & _ & _ & Hm & Hd & _)];
    cbn [closest minDist] in *.
  - rewrite Hc in Hres. discriminate.
  - rewrite Hm. exact Hd.
Qed.

(** X10.  What is highlighted is what a click selects: when moving the
    pointer to a place makes [handleMouseMove] set [hovered] to an event
    (tolerance 16), a click at the same place makes [handleClick] call
    [onSelect] with that same event (the default tolerance, 18). *)
Theorem X10_click_selects_the_hovered_event
    (events : list event) (cv : canvas) (rect : DOMRect) (e : MouseEvent)
    (evt : event) :
  handleMouseMove events cv rect e = Some evt ->
  handleClick events cv rect e = Some evt.
Proof.
  unfold handleMouseMove, handleClick, DEFAULT_MAX_DIST.
  apply findNearestEvent_wider_tolerance. vm_compute. reflexivity.
Qed.

Lemma X10_witness :
  handleMouseMove
    [ {| event_id := "here"; evt_lat := -10; evt_lon := -80 |} ]
    {| width := 360; height := 180 |}
    {| left := 20; top := 10; rect_width := 720; rect_height := 360 |}
    {| clientX := 226; clientY := 218 |}
  = Some {| event_id := "here"; evt_lat := -10; evt_lon := -80 |} /\
  handleClick
    [ {| event_id := "here"; evt_lat := -10; evt_lon := -80 |} ]
    {| width := 360; height := 180 |}
    {| left := 20; top := 10; rect_width := 720; rect_height := 360 |}
    {| clientX := 226; clientY := 218 |}
  = Some {| event_id := "here"; evt_lat := -10; evt_lon := -80 |}.
Proof.
  assert (Hhover :
    handleMouseMove
      [ {| event_id := "here"; evt_lat := -10; evt_lon := -80 |} ]
      {| width := 360; height := 180 |}
      {| left := 20; top := 10; rect_width := 720; rect_height := 360 |}
      {| clientX := 226; clientY := 218 |}
    = Some {| event_id := "here"; evt_lat := -10; evt_lon := -80 |})
    by (vm_compute; reflexivity).
  split; [exact Hhover |].
  now apply X10_click_selects_the_hovered_event.
Defined.

End GeoMoreProps.

(** ** Severity colours, areas, the detail card *)

Module ViewsProps.

Import JS AreaText Views.
Local Open Scope string_scope.

Lemma sev_assoc_entries (key : string) (cfg : severity_config) :
  sev_assoc key SEVERITY_CONFIG = Some cfg ->
  In (key, cfg) SEVERITY_CONFIG.
Proof.
  unfold SEVERITY_CONFIG. cbn [sev_assoc].
  destruct (String.eqb_spec key "critical") as [-> | _];
    [intros [= <-]; cbn; tauto |].
  destruct (String.eqb_spec key "high") as [-> | _];
    [intros [= <-]; cbn; tauto |].
  destruct (String.eqb_spec key "medium") as [-> | _];
    [intros [= <-]; cbn; tauto |].
  destruct (String.eqb_spec key "low") as [-> | _];
    [intros [= <-]; cbn; tauto |].
  discriminate.
Qed.



(** X12.  The severity colour of a feed row is always one of five colours:
    the configured colour for [critical], [high], [medium] and [low], and
    white ("#fff") for every other severity, for a missing one, and also
    for a name inherited from [Object.prototype] (whose [color] is
    undefined, so the fallback applies); the grid, which has no fallback,
    has no colour in those cases. *)
Theorem X12_feed_severity_colour_is_total (evt : event) :
  feed_severity_color evt
  = match sev_assoc (severity_key (severity evt)) SEVERITY_CONFIG with
    | Some cfg => sev_color cfg
    | None => "#fff"
    end /\
  In (feed_severity_color evt)
     ["#ef4444"; "#f97316"; "#eab308"; "#22c55e"; "#fff"] /\
  (sev_assoc (severity_key (severity evt)) SEVERITY_CONFIG = None ->
   grid_severity_color evt = None).
Proof.
  unfold feed_severity_color, grid_severity_color, lookup_severity.
  destruct (sev_assoc (severity_key (severity evt)) SEVERITY_CONFIG)
    as [cfg |] eqn:Hown.
  - apply sev_assoc_entries in Hown. cbn [color_of string_or].
    cbn in Hown.
    destruct Hown as [[= _ <-] | [[= _ <-] | [[= _ <-] | [[= _ <-] | []]]]];
      cbn; repeat split; auto 10; discriminate.
  - destruct (existsb _ Render.Object_prototype); cbn; repeat split; auto 10.
Qed.

End ViewsProps.

(** ** The breakdown bars and the filter pills *)

Module CountsProps.

Import Render Breakdown AppView.
Local Open Scope string_scope.
Local Open Scope list_scope.
Local Open Scope nat_scope.

Lemma list_sum_cons (n : nat) (l : list nat) :
  list_sum (n :: l) = n + list_sum l.
Proof. reflexivity. Qed.

(** An event whose type is one of the given keys. *)
Lemma hits_one_key (t : string) (keys : list string) :
  NoDup keys ->
  list_sum (map (fun k => if String.eqb t k then 1 else 0) keys)
  = if existsb (String.eqb t) keys then 1 else 0.
Proof.
  induction 1 as [| k ks Hnotin _ IH]; [reflexivity |].
  cbn [map existsb]. rewrite list_sum_cons, IH.
  destruct (String.eqb_spec t k) as [-> | Hne]; [| reflexivity].
  cbn [orb]. destruct (existsb (String.eqb k) ks) eqn:Hex; [| reflexivity].
  apply existsb_exists in Hex. destruct Hex as (k' & Hin & Heq).
  apply String.eqb_eq in Heq. subst k'. contradiction.
Qed.

Lemma list_sum_map_add {A} (f g : A -> nat) (l : list A) :
  list_sum (map (fun a => f a + g a) l)
  = list_sum (map f l) + list_sum (map g l).
Proof.
  induction l as [| a l IH]; [reflexivity |].
  cbn [map]. rewrite !list_sum_cons, IH. lia.
Qed.

(** Counting by type over keys that do not repeat counts every event of a
    listed type once. *)
Lemma count_sum (keys : list string) (events : list event) :
  NoDup keys ->
  list_sum (map (count_of events) keys)
  = List.length
      (filter (fun e => existsb (String.eqb (event_type e)) keys) events).
Proof.
  intros Hnd. induction events as [| e es IH].
  - cbn [filter List.length]. clear Hnd.
    induction keys as [| k ks IHk]; [reflexivity |].
    cbn [map]. rewrite list_sum_cons, IHk. reflexivity.
  - transitivity
      (list_sum (map (fun k => (if String.eqb (event_type e) k then 1 else 0)
                               + count_of es k) keys)).
    + f_equal. apply map_ext. intros k. unfold count_of. cbn [filter].
      destruct (String.eqb (event_type e) k); reflexivity.
    + rewrite list_sum_map_add, IH, (hits_one_key _ _ Hnd). cbn [filter].
      destruct (existsb (String.eqb (event_type e)) keys); reflexivity.
Qed.

Lemma keys_NoDup : NoDup (map fst EVENT_CONFIG).
Proof.
  cbn. repeat constructor; cbn; intuition discriminate.
Qed.

(** X13.  The breakdown always shows the six configured types, in the
    order of [EVENT_CONFIG], each with its own label and colour; a bar's
    count is the number of events of its type; the counts add up to the
    number of events whose type is configured, so never to more than there
    are events; and without events every count is 0. *)
Theorem X13_breakdown_bars (events : list event) :
  map bar_type (BreakdownBars events) = map fst EVENT_CONFIG /\
  (forall b, In b (BreakdownBars events) ->
             bar_count b = count_of events (bar_type b) /\
             exists cfg, In (bar_type b, cfg) EVENT_CONFIG /\
                         bar_label b = label cfg /\
                         bar_color b = color cfg) /\
  list_sum (map bar_count (BreakdownBars events))
  = List.length
      (filter (fun e => existsb (String.eqb (event_type e))
                                (map fst EVENT_CONFIG)) events) /\
  list_sum (map bar_count (BreakdownBars events)) <= List.length events /\
  (forall b, In b (BreakdownBars []) -> bar_count b = 0).
Proof.
  assert (Hsum : list_sum (map bar_count (BreakdownBars events))
                 = list_sum (map (count_of events) (map fst EVENT_CONFIG)))
    by reflexivity.
  split; [reflexivity |]. split; [| split; [| split]].
  - intros b Hin. cbn in Hin.
    destruct Hin as [<- | [<- | [<- | [<- | [<- | [<- | []]]]]]];
      (split; [reflexivity |]); eexists;
      (split; [cbn; repeat (first [left; reflexivity | right])
              | split; reflexivity]).
  - rewrite Hsum. apply count_sum, keys_NoDup.
  - rewrite Hsum, (count_sum _ _ keys_NoDup). apply filter_length_le.
  - intros b Hin. cbn in Hin.
    destruct Hin as [<- | [<- | [<- | [<- | [<- | [<- | []]]]]]];
      reflexivity.
Qed.

Lemma filter_split_length {A} (f : A -> bool) (l : list A) :
  List.length (filter f l) + List.length (filter (fun a => negb (f a)) l)
  = List.length l.
Proof.
  induction l as [| a l IH]; cbn; [reflexivity |].
  destruct (f a); cbn; lia.
Qed.

(** X14.  The number on a filter pill is the number of events shown when
    that pill is chosen; and the numbers on the six type pills add up to
    the number on ALL less the events whose type is not configured, so
    never to more than ALL. *)
Theorem X14_pill_counts (events : list event) :
  (forall key, pill_count key events
               = List.length (filteredEvents key events)) /\
  list_sum (map (fun key => pill_count key events) (map fst EVENT_CONFIG))
  + List.length
      (filter (fun e => negb (existsb (String.eqb (event_type e))
                                      (map fst EVENT_CONFIG))) events)
  = pill_count "all" events.
Proof.
  split.
  - intros key. unfold pill_count, filteredEvents.
    destruct (String.eqb key "all"); reflexivity.
  - change (list_sum (map (fun key => pill_count key events)
                          (map fst EVENT_CONFIG)))
      with (list_sum (map (count_of events) (map fst EVENT_CONFIG))).
    rewrite (count_sum _ _ keys_NoDup).
    apply filter_split_length.
Qed.

End CountsProps.

(** ** The feed panel *)

Module FeedPanelProps.

Import JS Hook Protocol AppView.
Import StreamProps.
Local Open Scope string_scope.
Local Open Scope list_scope.
Local Open Scope nat_scope.

(** X15.  With a full window of at least 20 entries (the default is 200),
    after any sequence of protocol messages the feed panel shows the first
    20 of the very events [App] gives the map and the grid: the newest 20 of
    the stream once the stream has sent any, the first 20 mock events
    before. *)
Theorem X15_feed_panel_is_the_front_of_the_events
    (maxEvents : Z) (msgs : list message) (mockEvents : list jsval) :
  (20 <= maxEvents)%Z ->
  exists (h : hook_state) (events : list jsval),
    receive_all maxEvents (map frame msgs) initial = Ok h /\
    App.events h mockEvents = Items events /\
    feed_panel h mockEvents = Items (firstn 20 events).
Proof.
  intros Hm.
  rewrite (receive_all_initial maxEvents msgs) by lia.
  match goal with
  | |- exists h events, Ok ?x = Ok h /\ _ => exists x
  end.
  unfold feed_panel, App.events.
  cbn [Hook.events Hook.feed].
  assert (Hcap : exists k, Z.to_nat maxEvents = 20 + k)
    by (exists (Z.to_nat maxEvents - 20); lia).
  destruct Hcap as [k Hk]. rewrite Hk.
  destruct (arrival_order msgs) as [| a rest].
  - exists mockEvents. rewrite !firstn_nil.
    cbn [length_positive List.length Nat.ltb Nat.leb].
    split; [reflexivity |]. split; [reflexivity |].
    cbn [window_slice20]. now rewrite slice0_firstn by lia.
  - exists (firstn (20 + k) (a :: rest)).
    split; [reflexivity |].
    change (20 + k) with (S (19 + k)). rewrite !firstn_cons.
    cbn [length_positive List.length Nat.ltb Nat.leb].
    split; [reflexivity |].
    rewrite firstn_firstn, Nat.min_l by lia. reflexivity.
Qed.

Lemma X15_witness :
  (20 <= 200)%Z /\
  exists (h : hook_state) (events : list jsval),
    receive_all 200 (map frame []) initial = Ok h /\
    App.events h [sample_event "m1"; sample_event "m2"] = Items events /\
    feed_panel h [sample_event "m1"; sample_event "m2"]
    = Items (firstn 20 events).
Proof.
  split; [lia |].
  apply (X15_feed_panel_is_the_front_of_the_events 200 []
           [sample_event "m1"; sample_event "m2"]).
  lia.
Defined.

End FeedPanelProps.

(** ** One poll of the statistics *)

Module StatsProps.

Import JS Stats.
Local Open Scope string_scope.

(** X16.  One call of [fetchStats]: [loading] is false afterwards, whatever
    happened.  When either request fails at the network level neither cell
    is replaced, even if the other request succeeded.  When both resolve,
    [stats] is replaced exactly when its response is [ok] and its body is
    JSON; and [worldModel] is replaced exactly when its response is [ok] and
    its body is JSON, unless the stats response was [ok] with a body that is
    not JSON, which ends the call before the world model is looked at. *)
Theorem X16_one_poll
    (statsFetch modelFetch : option Response) (s : stats_state) :
  loading (fetchStats statsFetch modelFetch s) = false /\
  (statsFetch = None \/ modelFetch = None ->
   stats (fetchStats statsFetch modelFetch s) = stats s /\
   worldModel (fetchStats statsFetch modelFetch s) = worldModel s) /\
  (forall statsRes modelRes,
      statsFetch = Some statsRes -> modelFetch = Some modelRes ->
      stats (fetchStats statsFetch modelFetch s)
      = match ok statsRes, json statsRes with
        | true, Some v => v
        | _, _ => stats s
        end /\
      worldModel (fetchStats statsFetch modelFetch s)
      = match ok statsRes, json statsRes with
        | true, None => worldModel s
        | _, _ =>
            match ok modelRes, json modelRes with
            | true, Some v => v
            | _, _ => worldModel s
            end
        end).
Proof.
  split; [reflexivity |]. split.
  - intros [-> | ->]; [split; reflexivity |].
    destruct statsFetch; split; reflexivity.
  - intros [sok sjson] [mok mjson] -> ->.
    unfold fetchStats, fetch_try. cbn [ok json].
    destruct sok, sjson, mok, mjson; split; reflexivity.
Qed.

Lemma X16_witness :
  stats (fetchStats (Some {| ok := true; json := Some (JObj []) |}) None
                    initial) = stats initial /\
  loading (fetchStats (Some {| ok := true; json := Some (JObj []) |}) None
                      initial) = false.
Proof.
  split.
  - apply (proj1 (proj2 (X16_one_poll
                           (Some {| ok := true; json := Some (JObj []) |})
                           None initial))).
    now right.
  - reflexivity.
Defined.

End StatsProps.

(** ** Frames with more properties *)

Module FrameProps.

Import JS Hook Protocol.
Import StreamProps.
Local Open Scope string_scope.

Lemma X17_witness :
  own_prop "events"
    [("seq", JNum 7); ("type", JStr "new_events");
     ("events", JArr [sample_event "A"]); ("sent_at", JStr "now")]
  = JArr [sample_event "A"] /\
  receive 200
    {| data := Some (JObj [("seq", JNum 7); ("type", JStr "new_events");
                           ("events", JArr [sample_event "A"]);
                           ("sent_at", JStr "now")]) |} initial
  = receive 200 (new_events [sample_event "A"]) initial.
Proof.
  split; [reflexivity |].
  apply (proj2 (receive_reads_type_and_events 200
                  [("seq", JNum 7); ("type", JStr "new_events");
                   ("events", JArr [sample_event "A"]); ("sent_at", JStr "now")]
                  [sample_event "A"] initial eq_refl)).
  reflexivity.
Defined.

End FrameProps.
